(** * Vehicle passport ledger

    A shallow embedding of [blockchain.py], [crypto_utils.py] and
    [users.py], and the properties of the ledger engine.

    - [PyDouble], [PyFloat]: what the code uses of Python floats
      (comparison with [<], [repr] as emitted by [json.dumps]), with NaN
      and without;
    - [py_sorted]: Python's stable [sorted(..., key=...)];
    - [pyval], [dumps], [canon]: JSON-serialisable Python values and
      [json.dumps(..., sort_keys=True)]; [py_eq]: Python's [==] on them;
    - [Transaction], [Block], [Blockchain]: the three classes of
      [blockchain.py], with the clock passed explicitly;
    - [sign_transaction] and [verify_transaction_signature] of
      [crypto_utils.py], the registry and the permissions of [users.py];
    - the encoder is injective, the index follows the chain, and the
      properties of validation, history and state reconstruction. *)

From Stdlib Require Import ZArith Ascii String.
From stdpp Require Import gmap strings list fin_maps pretty sorting.

#[local] Set Warnings "-clear-no-such-hyp".

(** ** Python floats

    Timestamps are floats: those returned by [time.time()], and whatever
    [from_dict] or an assignment stores.  The code compares them with [<]
    (inside [sorted]) and prints them with [repr] (inside [json.dumps]).
    [PyDouble] collects what is used of a float, NaN included: [<] is
    irreflexive and transitive, false on a NaN on either side, and a strict
    weak order on the other floats; [repr] is an injective rendering as a
    JSON number token that is not an integer literal ([NaN], [Infinity] and
    [-Infinity] are such tokens; the NaNs are taken as one value);
    [float_eq_int x n] is [x == n] for an integer [n].  [PyFloat] is the
    floats of the clock: no NaN, so that [<] is a strict weak order. *)

Definition is_digit (c : ascii) : bool :=
  let n := N_of_ascii c in (48 <=? n)%N && (n <=? 57)%N.

(** Characters that end a JSON token inside a list or a dict. *)
Definition is_delim (c : ascii) : bool :=
  match c with
  | ","%char | "]"%char | "}"%char => true
  | _ => false
  end.

Fixpoint all_chars (p : ascii → bool) (s : string) : bool :=
  match s with
  | EmptyString => true
  | String c r => p c && all_chars p r
  end.

Definition int_char (c : ascii) : bool := is_digit c || Ascii.eqb c "-".

Definition float_token (s : string) : bool :=
  match s with
  | EmptyString => false
  | String c _ =>
      (is_digit c || Ascii.eqb c "-" || Ascii.eqb c "N" || Ascii.eqb c "I")
      && all_chars (λ c, negb (is_delim c)) s
      && negb (all_chars int_char s)
  end.

Class PyDouble (F : Type) := {
  float_eq_dec :: EqDecision F;
  float_ltb : F → F → bool;
  float_is_nan : F → bool;
  float_eq_int : F → Z → bool;
  float_repr : F → string;
  float_ltb_irrefl : ∀ x, float_ltb x x = false;
  float_ltb_trans : ∀ x y z,
    float_ltb x y = true → float_ltb y z = true → float_ltb x z = true;
  float_ltb_nan : ∀ x y,
    float_is_nan x = true → float_ltb x y = false ∧ float_ltb y x = false;
  float_ltb_negtrans_nan : ∀ x y z,
    float_is_nan y = false →
    float_ltb x y = false → float_ltb y z = false → float_ltb x z = false;
  float_repr_inj : ∀ x y, float_repr x = float_repr y → x = y;
  float_repr_token : ∀ x, float_token (float_repr x) = true
}.

Class PyFloat (F : Type) := {
  float_double :: PyDouble F;
  float_no_nan : ∀ x : F, float_is_nan x = false
}.

(** [x == y] on floats: neither is smaller, and neither is a NaN. *)
Definition float_eqb {F : Type} {double_F : PyDouble F} (x y : F) : bool :=
  negb (float_ltb x y) && negb (float_ltb y x)
  && negb (float_is_nan x) && negb (float_is_nan y).

(** ** Python's [sorted]

    [sorted(l, key=f)] is a stable sort that compares keys with [<] only.
    Insertion from the right, placing an element before the first one that
    is not smaller, is such a sort: where [<] is a strict weak order on the
    keys of the list, every stable sort returns the same list.  A list in
    which no element is smaller than the one before it is returned as it
    is, by this sort and by [list.sort], which finds it to be one ascending
    run; this is what happens to the keys [3.0, nan, 1.0]. *)

Section py_sorted.
Context {A K : Type} (ltb : K → K → bool) (key : A → K).

Fixpoint sorted_insert (x : A) (l : list A) : list A :=
  match l with
  | [] => [x]
  | y :: l' =>
      if ltb (key y) (key x) then y :: sorted_insert x l' else x :: y :: l'
  end.

Fixpoint py_sorted (l : list A) : list A :=
  match l with
  | [] => []
  | x :: l' => sorted_insert x (py_sorted l')
  end.

(** [key_le a b]: [b] may come after [a] in ascending order. *)
Definition key_le (a b : A) : Prop := ltb (key b) (key a) = false.

(** [key_tied k a]: the key of [a] and [k] compare equal. *)
Definition key_tied (k : K) (a : A) : bool :=
  negb (ltb (key a) k) && negb (ltb k (key a)).

End py_sorted.

(** ** JSON-serialisable Python values

    The values [json.dumps] accepts: [None], booleans, integers, floats,
    strings (sequences of code points below 256), lists, tuples, and dicts
    with string keys, as the payloads of this repository are.  (The encoder
    also takes a number, a bool or [None] as a key and prints it as a
    string; such dicts are not among these values.) *)

Section json.
Context {F : Type} {float_F : PyDouble F}.

Local Unset Elimination Schemes.
Inductive pyval : Type :=
| PNone
| PBool (b : bool)
| PInt (z : Z)
| PFloat (x : F)
| PStr (s : string)
| PList (l : list pyval)
| PTuple (l : list pyval)
| PDict (d : list (string * pyval)).
Local Set Elimination Schemes.

(** A dict is an association list in insertion order; [dict_get] is
    [d.get(k, dflt)], [dict_has] is [k in d]. *)
Fixpoint dict_lookup (k : string) (d : list (string * pyval)) : option pyval :=
  match d with
  | [] => None
  | (k', v) :: d' => if String.eqb k k' then Some v else dict_lookup k d'
  end.

Definition dict_get (d : list (string * pyval)) (k : string) (dflt : pyval) : pyval :=
  default dflt (dict_lookup k d).

Definition dict_has (k : string) (d : list (string * pyval)) : bool :=
  bool_decide (is_Some (dict_lookup k d)).

(** [json.dumps] with [sort_keys=True] sorts the items of every dict, at
    every depth, by key. *)
Definition sort_items (d : list (string * pyval)) : list (string * pyval) :=
  py_sorted String.ltb fst d.

Fixpoint canon (v : pyval) : pyval :=
  match v with
  | PList l => PList (map canon l)
  | PTuple l => PTuple (map canon l)
  | PDict d => PDict (sort_items (map (λ kv, let '(k, x) := kv in (k, canon x)) d))
  | _ => v
  end.

(** *** The encoder *)

Definition dquote : ascii := "034"%char.

Definition hex_digit (n : N) : ascii :=
  match n with
  | 0 => "0" | 1 => "1" | 2 => "2" | 3 => "3" | 4 => "4" | 5 => "5"
  | 6 => "6" | 7 => "7" | 8 => "8" | 9 => "9" | 10 => "a" | 11 => "b"
  | 12 => "c" | 13 => "d" | 14 => "e" | _ => "f"
  end%char%N.

(** [py_encode_basestring_ascii]: printable ASCII is kept, the quote and
    the backslash are escaped, seven control characters have a short
    escape, everything else becomes a four-digit hexadecimal escape.  A
    string is a sequence of code points below 256. *)
Definition escape_char (c : ascii) : string :=
  let n := N_of_ascii c in
  if (n =? 34)%N then String "\" (String dquote "")
  else if (n =? 92)%N then "\\"
  else if (n =? 8)%N then "\b"
  else if (n =? 12)%N then "\f"
  else if (n =? 10)%N then "\n"
  else if (n =? 13)%N then "\r"
  else if (n =? 9)%N then "\t"
  else if (32 <=? n)%N && (n <=? 126)%N then String c ""
  else String "\" (String "u" (String "0" (String "0"
         (String (hex_digit (n / 16)) (String (hex_digit (n mod 16)) ""))))).

Fixpoint escape (s : string) : string :=
  match s with
  | EmptyString => ""
  | String c r => escape_char c +:+ escape r
  end.

Definition quote (s : string) : string :=
  String dquote (escape s +:+ String dquote "").

Fixpoint join (sep : string) (l : list string) : string :=
  match l with
  | [] => ""
  | s :: l' =>
      match l' with
      | [] => s
      | _ => s +:+ sep +:+ join sep l'
      end
  end.

Fixpoint dumps (v : pyval) : string :=
  match v with
  | PNone => "null"
  | PBool true => "true"
  | PBool false => "false"
  | PInt z => pretty z
  | PFloat x => float_repr x
  | PStr s => quote s
  | PList l | PTuple l => "[" +:+ join ", " (map dumps l) +:+ "]"
  | PDict d =>
      "{" +:+ join ", "
        (map (λ kv, let '(k, x) := kv in quote k +:+ ": " +:+ dumps x) d)
      +:+ "}"
  end.

(** [json.dumps(v, sort_keys=True)]; the text is ASCII, so that its UTF-8
    encoding is the text itself. *)
Definition dumps_sorted (v : pyval) : string := dumps (canon v).

(** What [json.loads] reads back from the text: a tuple has become the
    list of its items. *)
Fixpoint as_json (v : pyval) : pyval :=
  match v with
  | PList l | PTuple l => PList (map as_json l)
  | PDict d => PDict (map (λ kv, let '(k, x) := kv in (k, as_json x)) d)
  | _ => v
  end.

(** *** Equality of values

    [pyval_eqb]: two values are the same when they have the same type and
    content, floats with the same [repr]; two dicts are the same when they
    have the same keys with the same values, whatever the insertion order.
    This is finer than Python's [==], which is [py_eq] below. *)
Fixpoint pyval_eqb (a b : pyval) : bool :=
  match a, b with
  | PNone, PNone => true
  | PBool x, PBool y => bool_decide (x = y)
  | PInt x, PInt y => bool_decide (x = y)
  | PFloat x, PFloat y => bool_decide (x = y)
  | PStr x, PStr y => bool_decide (x = y)
  | PList l, PList l' | PTuple l, PTuple l' =>
      (fix go (l : list pyval) (l' : list pyval) : bool :=
         match l, l' with
         | [], [] => true
         | x :: r, y :: r' => pyval_eqb x y && go r r'
         | _, _ => false
         end) l l'
  | PDict d, PDict d' =>
      bool_decide (length d = length d')
      && forallb (λ kv, let '(k, x) := kv in
                   match dict_lookup k d' with
                   | Some y => pyval_eqb x y
                   | None => false
                   end) d
  | _, _ => false
  end.

(** [json_eqb]: the same JSON value, which is what [json.dumps] with
    [sort_keys] can tell apart: a tuple counts as the list of its items. *)
Definition json_eqb (a b : pyval) : bool := pyval_eqb (as_json a) (as_json b).

(** [py_eq a b] is [a == b] on distinct objects.  A bool is the integer 0
    or 1, an integer and a float are compared by value, a list and a tuple
    are never equal, and two dicts are equal when they have the same keys
    with equal values. *)
Definition py_number (v : pyval) : option (Z + F) :=
  match v with
  | PBool b => Some (inl (if b then 1 else 0)%Z)
  | PInt z => Some (inl z)
  | PFloat x => Some (inr x)
  | _ => None
  end.

Definition number_eqb (m n : Z + F) : bool :=
  match m, n with
  | inl x, inl y => bool_decide (x = y)
  | inl z, inr x | inr x, inl z => float_eq_int x z
  | inr x, inr y => float_eqb x y
  end.

Fixpoint py_eq (a b : pyval) : bool :=
  match py_number a, py_number b with
  | Some m, Some n => number_eqb m n
  | _, _ =>
      match a, b with
      | PNone, PNone => true
      | PStr x, PStr y => bool_decide (x = y)
      | PList l, PList l' | PTuple l, PTuple l' =>
          (fix go (l : list pyval) (l' : list pyval) : bool :=
             match l, l' with
             | [], [] => true
             | x :: r, y :: r' => py_eq x y && go r r'
             | _, _ => false
             end) l l'
      | PDict d, PDict d' =>
          bool_decide (length d = length d')
          && forallb (λ kv, let '(k, x) := kv in
                       match dict_lookup k d' with
                       | Some y => py_eq x y
                       | None => false
                       end) d
      | _, _ => false
      end
  end.

(** A Python dict has no two items with the same key. *)
Fixpoint pyval_wf (v : pyval) : Prop :=
  match v with
  | PList l | PTuple l => foldr (λ x P, pyval_wf x ∧ P) True l
  | PDict d =>
      NoDup (map fst d)
      ∧ foldr (λ kv P, (let '(_, x) := kv in pyval_wf x) ∧ P) True d
  | _ => True
  end.

End json.

Global Arguments pyval : clear implicits.

(** ** The digest

    [hashlib.sha256(...).hexdigest()], from bytes to lowercase hex. *)
Class Sha256 := sha256_hexdigest : string → string.

(** ** [blockchain.py] *)

Section ledger.
Context {F : Type} {float_F : PyDouble F} {sha256 : Sha256}.

(** *** class Transaction *)

Record Transaction := mkTransaction {
  vin : string;
  type : string;
  actor_id : string;
  role : string;
  timestamp : F;
  payload : list (string * pyval F);
  tx_id : option string;
  signature : option string
}.

Definition opt_str (o : option string) : pyval F :=
  match o with
  | Some s => PStr s
  | None => PNone
  end.

Definition to_dict (tx : Transaction) : pyval F :=
  PDict [("tx_id", opt_str (tx_id tx));
         ("vin", PStr (vin tx));
         ("type", PStr (type tx));
         ("actor_id", PStr (actor_id tx));
         ("role", PStr (role tx));
         ("timestamp", PFloat (timestamp tx));
         ("payload", PDict (payload tx));
         ("signature", opt_str (signature tx))].

Definition tx_data (tx : Transaction) : pyval F :=
  PDict [("vin", PStr (vin tx));
         ("type", PStr (type tx));
         ("actor_id", PStr (actor_id tx));
         ("role", PStr (role tx));
         ("timestamp", PFloat (timestamp tx));
         ("payload", PDict (payload tx))].

Definition _compute_tx_id (tx : Transaction) : string :=
  sha256_hexdigest (dumps_sorted (tx_data tx)).

(** [Transaction.__init__]; [now] is the value of [time()]. *)
Definition Transaction_init (now : F) (vin tx_type actor_id role : string)
    (payload : list (string * pyval F)) : Transaction :=
  let tx := mkTransaction vin tx_type actor_id role now payload None None in
  mkTransaction vin tx_type actor_id role now payload
    (Some (_compute_tx_id tx)) None.

(** *** class Block *)

Record Block := mkBlock {
  block_number : nat;
  block_timestamp : F;
  block_transactions : list Transaction;
  previous_hash : string;
  nonce : Z;
  hash : option string
}.

Definition Block_init (now : F) (block_number : nat)
    (transactions : list Transaction) (previous_hash : string) (nonce : Z) : Block :=
  mkBlock block_number now transactions previous_hash nonce None.

Definition block_dict (b : Block) : pyval F :=
  PDict [("block_number", PInt (Z.of_nat (block_number b)));
         ("timestamp", PFloat (block_timestamp b));
         ("transactions", PList (map to_dict (block_transactions b)));
         ("nonce", PInt (nonce b));
         ("previous_hash", PStr (previous_hash b))].

Definition compute_hash (b : Block) : string :=
  sha256_hexdigest (dumps_sorted (block_dict b)).

Definition set_hash (b : Block) (h : option string) : Block :=
  mkBlock (block_number b) (block_timestamp b) (block_transactions b)
    (previous_hash b) (nonce b) h.

(** *** class Blockchain *)

Record Blockchain := mkBlockchain {
  chain : list Block;
  transactions : list Transaction;
  vin_index : gmap string (list Transaction)
}.

(** [self.vin_index[transaction.vin].append(transaction)] on a
    [defaultdict(list)] *)
Definition _index_transaction (idx : gmap string (list Transaction))
    (transaction : Transaction) : gmap string (list Transaction) :=
  <[(vin transaction) := (default [] (idx !! vin transaction) ++ [transaction])]> idx.

Definition _index_block (idx : gmap string (list Transaction)) (block : Block)
    : gmap string (list Transaction) :=
  foldl _index_transaction idx (block_transactions block).

(** [create_block] returns the block; the updated ledger comes with it. *)
Definition create_block (now : F) (nonce : Z) (previous_hash : string)
    (self : Blockchain) : Blockchain * Block :=
  let block :=
    Block_init now (length (chain self) + 1) (transactions self) previous_hash nonce in
  let block := set_hash block (Some (compute_hash block)) in
  (mkBlockchain (chain self ++ [block]) [] (_index_block (vin_index self) block),
   block).

Definition Blockchain_init (now : F) : Blockchain :=
  (create_block now 0 "00" (mkBlockchain [] [] ∅)).1.

Definition add_transaction (transaction : Transaction) (self : Blockchain)
    : Blockchain * nat :=
  (mkBlockchain (chain self) (transactions self ++ [transaction]) (vin_index self),
   length (chain self) + 1).

Definition get_last_block (self : Blockchain) : option Block := last (chain self).

(** The loop of [is_chain_valid] over [range(1, len(self.chain))]; the
    messages it prints are left out.  An index out of the chain would
    raise: the range has none, and the loop answers [false] there. *)
Fixpoint chain_valid_loop (chain : list Block) (idxs : list nat) : bool :=
  match idxs with
  | [] => true
  | i :: idxs' =>
      match chain !! i, chain !! (i - 1) with
      | Some current_block, Some previous_block =>
          if bool_decide (hash current_block ≠ Some (compute_hash current_block))
          then false
          else if bool_decide (Some (previous_hash current_block) ≠ hash previous_block)
          then false
          else chain_valid_loop chain idxs'
      | _, _ => false
      end
  end.

Definition is_chain_valid (self : Blockchain) : bool :=
  chain_valid_loop (chain self) (seq 1 (length (chain self) - 1)).

Definition get_vehicle_history (self : Blockchain) (v : string) : list Transaction :=
  py_sorted float_ltb timestamp (default [] (vin_index self !! v)).

(** The [info] dict of [get_vehicle_info], one field per key. *)
Record vehicle_info := mkInfo {
  info_vin : string;
  make : pyval F;
  model : pyval F;
  year : pyval F;
  current_owner : pyval F;
  latest_mileage : pyval F;
  created_by : pyval F;
  created_at : pyval F;
  total_transactions : nat
}.

Definition info_step (info : vehicle_info) (tx : Transaction) : vehicle_info :=
  if bool_decide (type tx = "VEHICLE_CREATED") then
    mkInfo (info_vin info)
      (dict_get (payload tx) "make" PNone)
      (dict_get (payload tx) "model" PNone)
      (dict_get (payload tx) "year" PNone)
      (dict_get (payload tx) "owner_id" (PStr (actor_id tx)))
      (dict_get (payload tx) "initial_mileage" PNone)
      (PStr (actor_id tx))
      (PFloat (timestamp tx))
      (total_transactions info)
  else if bool_decide (type tx = "MILEAGE_UPDATE") then
    mkInfo (info_vin info) (make info) (model info) (year info)
      (current_owner info)
      (dict_get (payload tx) "new_mileage" PNone)
      (created_by info) (created_at info) (total_transactions info)
  else if bool_decide (type tx = "OWNERSHIP_TRANSFER") then
    mkInfo (info_vin info) (make info) (model info) (year info)
      (dict_get (payload tx) "new_owner_id" PNone)
      (latest_mileage info)
      (created_by info) (created_at info) (total_transactions info)
  else info.

Definition get_vehicle_info (self : Blockchain) (v : string) : option vehicle_info :=
  let history := get_vehicle_history self v in
  match history with
  | [] => None
  | _ =>
      let info :=
        mkInfo v PNone PNone PNone PNone PNone PNone PNone (length history) in
      Some (foldl info_step info history)
  end.

Definition mileage_step (mileage : pyval F) (tx : Transaction) : pyval F :=
  if bool_decide (type tx = "VEHICLE_CREATED") && dict_has "initial_mileage" (payload tx)
  then dict_get (payload tx) "initial_mileage" PNone
  else if bool_decide (type tx = "MILEAGE_UPDATE") && dict_has "new_mileage" (payload tx)
  then dict_get (payload tx) "new_mileage" PNone
  else mileage.

Definition get_latest_mileage (self : Blockchain) (v : string) : pyval F :=
  foldl mileage_step PNone (get_vehicle_history self v).

Definition vehicle_exists (self : Blockchain) (v : string) : bool :=
  match vin_index self !! v with
  | Some l => bool_decide (0 < length l)
  | None => false
  end.

Definition rebuild_index_from_chain (self : Blockchain) : Blockchain * nat :=
  let idx := foldl _index_block ∅ (chain self) in
  (mkBlockchain (chain self) (transactions self) idx, size idx).

End ledger.

Global Arguments Transaction : clear implicits.
Global Arguments Block : clear implicits.
Global Arguments Blockchain : clear implicits.
Global Arguments vehicle_info : clear implicits.

(** ** [crypto_utils.py] *)

Inductive exn : Type :=
| ValueError (msg : string)
| CryptoError (msg : string).

(** The PKCS#1 v1.5 signature over the SHA-256 of a message, hex encoded:
    from the private key (hex of DER) and the message to the signature, or
    to the exception raised while the key is decoded. *)
Class Signer := pkcs1_sign_hex : string → string → exn + string.

Section crypto_utils.
Context {F : Type} {signer : Signer}.

Definition sign_transaction (transaction : Transaction F)
    (private_key_hex : string) : exn + Transaction F :=
  match tx_id transaction with
  | None | Some EmptyString =>
      inl (ValueError "Transaction must have tx_id before signing")
  | Some id =>
      match pkcs1_sign_hex private_key_hex id with
      | inl e => inl e
      | inr sig =>
          inr (mkTransaction (vin transaction) (type transaction)
                 (actor_id transaction) (role transaction)
                 (timestamp transaction) (payload transaction)
                 (tx_id transaction) (Some sig))
      end
  end.

End crypto_utils.


(** ** Ledger states and their observation *)

(** The event types listed in the documentation of [Transaction]. *)
Definition event_types : list string :=
  ["VEHICLE_CREATED"; "MILEAGE_UPDATE"; "SERVICE_RECORD"; "ACCIDENT_RECORD";
   "OWNERSHIP_TRANSFER"].

Section ledger_states.
Context {F : Type} {float_F : PyDouble F} {sha256 : Sha256}.

(** The states a ledger goes through: construction, then any sequence of
    [add_transaction], [create_block] and [rebuild_index_from_chain]. *)
Inductive reachable : Blockchain F → Prop :=
| reachable_init now : reachable (Blockchain_init now)
| reachable_add tx self :
    reachable self → reachable (add_transaction tx self).1
| reachable_create now nonce previous_hash self :
    reachable self → reachable (create_block now nonce previous_hash self).1
| reachable_rebuild self :
    reachable self → reachable (rebuild_index_from_chain self).1.

(** The transactions of [v] in the sealed blocks, in chain order, each
    block's transactions in their order in the block. *)
Definition chain_history (chain : list (Block F)) (v : string) : list (Transaction F) :=
  concat (map (λ b, filter (λ tx, vin tx = v) (block_transactions b)) chain).

Definition chain_transactions (chain : list (Block F)) : list (Transaction F) :=
  concat (map block_transactions chain).

(** [add_transaction] called on each transaction in turn; the values
    returned by the calls come with the final state. *)
Fixpoint submit_all (txs : list (Transaction F)) (self : Blockchain F)
    : Blockchain F * list nat :=
  match txs with
  | [] => (self, [])
  | tx :: txs' =>
      let '(self1, r) := add_transaction tx self in
      let '(self2, rs) := submit_all txs' self1 in
      (self2, r :: rs)
  end.

(** [add_transaction] followed by [create_block]. *)
Definition submit_and_seal (tx : Transaction F) (now : F) (nonce : Z)
    (previous_hash : string) (self : Blockchain F) : Blockchain F :=
  (create_block now nonce previous_hash (add_transaction tx self).1).1.

(** A transaction is well formed when its payload is a dict: no key occurs
    twice, at any depth. *)
Definition tx_wf (tx : Transaction F) : Prop := pyval_wf (PDict (payload tx)).

(** The transactions from which [get_latest_mileage] takes a value. *)
Definition sets_mileage (tx : Transaction F) : bool :=
  bool_decide (type tx = "VEHICLE_CREATED")
  && dict_has "initial_mileage" (payload tx)
  || bool_decide (type tx = "MILEAGE_UPDATE")
     && dict_has "new_mileage" (payload tx).



(** Assignments to the attributes of stored objects. *)
Definition set_previous_hash (b : Block F) (p : string) : Block F :=
  mkBlock (block_number b) (block_timestamp b) (block_transactions b)
    p (nonce b) (hash b).

Definition set_block_transactions (b : Block F) (txs : list (Transaction F)) : Block F :=
  mkBlock (block_number b) (block_timestamp b) txs (previous_hash b) (nonce b)
    (hash b).

Definition set_vin (tx : Transaction F) (v : string) : Transaction F :=
  mkTransaction v (type tx) (actor_id tx) (role tx) (timestamp tx)
    (payload tx) (tx_id tx) (signature tx).


Definition set_chain (self : Blockchain F) (chain' : list (Block F)) : Blockchain F :=
  mkBlockchain chain' (transactions self) (vin_index self).

End ledger_states.

(** ** Reading the encoder's output *)

(** [token_end p r]: a token made of [p]-characters ends where [r] starts. *)
Definition token_end (p : ascii → bool) (r : string) : Prop :=
  match r with
  | EmptyString => True
  | String c _ => p c = false
  end.

Definition not_delim (c : ascii) : bool := negb (is_delim c).

Definition hex_val (c : ascii) : N :=
  let n := N_of_ascii c in
  if (n <=? 57)%N then (n - 48)%N else (n - 87)%N.

(** Reads back one escaped character. *)
Definition unescape_char (s : string) : option (ascii * string) :=
  match s with
  | String "\" (String c r) =>
      if Ascii.eqb c dquote then Some (dquote, r)
      else if Ascii.eqb c "\" then Some ("\"%char, r)
      else if Ascii.eqb c "b" then Some ("008"%char, r)
      else if Ascii.eqb c "f" then Some ("012"%char, r)
      else if Ascii.eqb c "n" then Some ("010"%char, r)
      else if Ascii.eqb c "r" then Some ("013"%char, r)
      else if Ascii.eqb c "t" then Some ("009"%char, r)
      else
        match r with
        | String _ (String _ (String h (String l r'))) =>
            Some (ascii_of_N (16 * hex_val h + hex_val l), r')
        | _ => None
        end
  | String c r => if Ascii.eqb c dquote then None else Some (c, r)
  | EmptyString => None
  end.

(** The first character of a JSON text tells the kind of value. *)
Definition char_class (c : ascii) : nat :=
  if Ascii.eqb c "n" then 0
  else if Ascii.eqb c "t" || Ascii.eqb c "f" then 1
  else if is_digit c || Ascii.eqb c "-" || Ascii.eqb c "N" || Ascii.eqb c "I" then 2
  else if Ascii.eqb c dquote then 3
  else if Ascii.eqb c "[" then 4
  else if Ascii.eqb c "{" then 5
  else 6.

Definition val_class {F : Type} (v : pyval F) : nat :=
  match v with
  | PNone => 0
  | PBool _ => 1
  | PInt _ | PFloat _ => 2
  | PStr _ => 3
  | PList _ | PTuple _ => 4
  | PDict _ => 5
  end.

Definition canon_items {F : Type} (d : list (string * pyval F))
    : list (string * pyval F) :=
  map (λ kv, let '(k, x) := kv in (k, canon x)) d.

(** ** A concrete clock, digest and signer

    Floats with an integral value: [repr] prints them as the integer
    followed by [.0], as Python does below [1e16].  The digest without
    collisions is the text itself; the signer accepts every key. *)

Definition whole_repr (z : Z) : string := pretty z +:+ ".0".

(** The same floats and NaN, which [json.dumps] prints as [NaN]. *)
Inductive whole_or_nan : Type :=
| Whole (z : Z)
| NaN.

Definition nan_ltb (x y : whole_or_nan) : bool :=
  match x, y with
  | Whole a, Whole b => (a <? b)%Z
  | _, _ => false
  end.

Definition nan_is_nan (x : whole_or_nan) : bool :=
  match x with
  | NaN => true
  | Whole _ => false
  end.

Definition nan_eq_int (x : whole_or_nan) (n : Z) : bool :=
  match x with
  | Whole z => (z =? n)%Z
  | NaN => false
  end.

Definition nan_repr (x : whole_or_nan) : string :=
  match x with
  | Whole z => whole_repr z
  | NaN => "NaN"
  end.

Definition plain_digest : Sha256 := λ s, s.

Definition plain_signer : Signer :=
  λ key msg, inr ("sig(" +:+ key +:+ "," +:+ msg +:+ ")").

(** * Properties *)

(** ** [sorted] *)

Section py_sorted_facts.
Context {A K : Type} (ltb : K → K → bool) (key : A → K).

Lemma sorted_insert_perm x l : sorted_insert ltb key x l ≡ₚ x :: l.
Proof.
  induction l as [|y l IH]; simpl; [done|].
  destruct (ltb (key y) (key x)); [|done].
  rewrite IH. apply Permutation_swap.
Qed.

Lemma py_sorted_perm l : py_sorted ltb key l ≡ₚ l.
Proof.
  induction l as [|x l IH]; simpl; [done|].
  by rewrite sorted_insert_perm, IH.
Qed.

Lemma py_sorted_length l : length (py_sorted ltb key l) = length l.
Proof. by rewrite py_sorted_perm. Qed.

Lemma py_sorted_nil_inv l : py_sorted ltb key l = [] → l = [].
Proof.
  intros E. apply Permutation_nil_r. rewrite <- E. by rewrite py_sorted_perm.
Qed.

(** A change of the items that keeps their keys goes through the sort. *)
Lemma sorted_insert_map (g : A → A) x l :
  (∀ a, key (g a) = key a) →
  sorted_insert ltb key (g x) (map g l) = map g (sorted_insert ltb key x l).
Proof.
  intros Hg. induction l as [|y l IH]; simpl; [done|].
  rewrite !Hg. destruct (ltb (key y) (key x)); simpl; [by rewrite IH|done].
Qed.

Lemma py_sorted_map (g : A → A) l :
  (∀ a, key (g a) = key a) →
  py_sorted ltb key (map g l) = map g (py_sorted ltb key l).
Proof.
  intros Hg. induction l as [|x l IH]; simpl; [done|].
  by rewrite IH, sorted_insert_map.
Qed.

(** The sort looks at the order on the keys of the list only. *)
Lemma sorted_insert_ext (ltb' : K → K → bool) x l :
  (∀ y, y ∈ l → ltb (key y) (key x) = ltb' (key y) (key x)) →
  sorted_insert ltb key x l = sorted_insert ltb' key x l.
Proof.
  induction l as [|y l IH]; intros Hl; simpl; [done|].
  rewrite <- (Hl y) by (by left).
  rewrite IH; [done|]. intros z Hz. apply Hl. by right.
Qed.

Lemma py_sorted_ext (ltb' : K → K → bool) l :
  (∀ x y, x ∈ l → y ∈ l → ltb (key x) (key y) = ltb' (key x) (key y)) →
  py_sorted ltb key l = py_sorted ltb' key l.
Proof.
  induction l as [|x l IH]; intros Hl; simpl; [done|].
  rewrite <- IH by (intros y z Hy Hz; apply Hl; by right).
  apply sorted_insert_ext. intros y Hy. rewrite py_sorted_perm in Hy.
  apply Hl; [by right|by left].
Qed.

(** A list in which no item is smaller than the one before it is one
    ascending run, and is left as it is. *)
Lemma py_sorted_run l :
  (∀ i a b, l !! i = Some a → l !! (S i) = Some b → ltb (key b) (key a) = false) →
  py_sorted ltb key l = l.
Proof.
  induction l as [|x l IH]; intros Hl; simpl; [done|].
  rewrite IH by (intros i a b Ha Hb; by apply (Hl (S i))).
  destruct l as [|y l]; simpl; [done|].
  by rewrite (Hl 0 x y).
Qed.

Hypothesis ltb_irrefl : ∀ x, ltb x x = false.
Hypothesis ltb_trans : ∀ x y z, ltb x y = true → ltb y z = true → ltb x z = true.
Hypothesis ltb_negtrans :
  ∀ x y z, ltb x y = false → ltb y z = false → ltb x z = false.

Lemma ltb_asym x y : ltb x y = true → ltb y x = false.
Proof.
  intros Hxy. destruct (ltb y x) eqn:Hyx; [|done].
  by rewrite <- (ltb_irrefl x), (ltb_trans x y x).
Qed.

Lemma sorted_insert_sorted x l :
  StronglySorted (key_le ltb key) l →
  StronglySorted (key_le ltb key) (sorted_insert ltb key x l).
Proof.
  induction 1 as [|y l Hl IH Hy]; simpl.
  { repeat constructor. }
  destruct (ltb (key y) (key x)) eqn:Hyx.
  - constructor; [done|].
    rewrite sorted_insert_perm. constructor; [|done].
    by apply ltb_asym.
  - constructor; [by constructor|].
    constructor; [done|].
    eapply Forall_impl; [exact Hy|]. intros z Hz. unfold key_le in *.
    by apply (ltb_negtrans _ (key y)).
Qed.

Lemma py_sorted_sorted l : StronglySorted (key_le ltb key) (py_sorted ltb key l).
Proof.
  induction l; simpl; [constructor|]. by apply sorted_insert_sorted.
Qed.

Lemma key_tied_lt k x y :
  key_tied ltb key k x = true → ltb (key y) (key x) = true →
  key_tied ltb key k y = false.
Proof.
  unfold key_tied. intros [Hx1 Hx2]%andb_true_iff Hyx.
  apply negb_true_iff in Hx1, Hx2.
  destruct (ltb (key y) k) eqn:Hyk; [done|].
  by rewrite (ltb_negtrans (key y) k (key x)) in Hyx.
Qed.

Lemma sorted_insert_filter_tied k x l :
  filter (λ a, key_tied ltb key k a = true) (sorted_insert ltb key x l)
  = filter (λ a, key_tied ltb key k a = true) (x :: l).
Proof.
  induction l as [|y l IH]; simpl; [done|].
  destruct (ltb (key y) (key x)) eqn:Hyx; [|done].
  rewrite !filter_cons in *.
  destruct (decide (key_tied ltb key k x = true)) as [Hx|Hx].
  - rewrite (key_tied_lt k x y Hx Hyx). simpl.
    destruct (decide (false = true)); [done|]. by rewrite IH.
  - destruct (decide (key_tied ltb key k y = true)); by rewrite IH.
Qed.

Lemma py_sorted_filter_tied k l :
  filter (λ a, key_tied ltb key k a = true) (py_sorted ltb key l)
  = filter (λ a, key_tied ltb key k a = true) l.
Proof.
  induction l as [|x l IH]; simpl; [done|].
  rewrite sorted_insert_filter_tied, !filter_cons. by rewrite IH.
Qed.

(** A list that is already in ascending order is left as it is. *)
Lemma py_sorted_id l : StronglySorted (key_le ltb key) l → py_sorted ltb key l = l.
Proof.
  induction 1 as [|x l Hl IH Hx]; simpl; [done|].
  rewrite IH. destruct Hx as [|y l Hxy _]; simpl; [done|].
  unfold key_le in Hxy. by rewrite Hxy.
Qed.

(** With a total order on keys and no two items with the same key, the
    result depends on the items only, not on their order. *)
Lemma py_sorted_unique l1 l2 :
  (∀ x y, ltb x y = false → ltb y x = false → x = y) →
  NoDup (map key l1) → l1 ≡ₚ l2 →
  py_sorted ltb key l1 = py_sorted ltb key l2.
Proof.
  intros Htotal Hnd Hperm.
  apply (StronglySorted_unique_strong (key_le ltb key)); try apply py_sorted_sorted.
  - intros a b Ha Hb Hab Hba.
    rewrite py_sorted_perm in Ha. rewrite py_sorted_perm, <- Hperm in Hb.
    assert (key a = key b) as Hk by (by apply Htotal).
    apply list_elem_of_lookup in Ha as [i Hi], Hb as [j Hj].
    assert (i = j) as ->; [|congruence].
    eapply NoDup_lookup; [exact Hnd|..]; rewrite list_lookup_fmap.
    + by rewrite Hi.
    + by rewrite Hj, Hk.
  - by rewrite !py_sorted_perm.
Qed.

End py_sorted_facts.

(** ** Sorting floats

    Among floats none of which is a NaN, [sorted] orders as it does with
    any strict weak order: [<] agrees there with the order that puts NaN
    after every other float. *)

Lemma StronglySorted_impl_on {A} (R R' : A → A → Prop) (l : list A) :
  (∀ x y, x ∈ l → y ∈ l → R x y → R' x y) →
  StronglySorted R l → StronglySorted R' l.
Proof.
  intros HR Hs. induction Hs as [|x l Hs IH Hx]; constructor.
  - apply IH. intros y z Hy Hz. apply HR; by right.
  - rewrite Forall_forall in Hx. apply Forall_forall. intros y Hy.
    apply HR; [by left|by right|by apply Hx].
Qed.

Lemma list_filter_ext_on {A} (P Q : A → Prop) `{!∀ x, Decision (P x)}
    `{!∀ x, Decision (Q x)} (l : list A) :
  Forall (λ x, P x ↔ Q x) l → filter P l = filter Q l.
Proof.
  induction 1 as [|x l Hx _ IH]; [done|].
  rewrite !filter_cons, IH.
  destruct (decide (P x)), (decide (Q x)); tauto.
Qed.

Section float_sorted.
Context {F : Type} {float_F : PyDouble F} {A : Type} (key : A → F).

Lemma py_sorted_floats (l : list A) :
  Forall (λ a, float_is_nan (key a) = false) l →
  StronglySorted (key_le float_ltb key) (py_sorted float_ltb key l)
  ∧ ∀ t, float_is_nan t = false →
      filter (λ a, key_tied float_ltb key t a = true) (py_sorted float_ltb key l)
      = filter (λ a, key_tied float_ltb key t a = true) l.
Proof.
  intros Hl.
  set (lt' := λ x y : F,
         if float_is_nan x then false
         else if float_is_nan y then true else float_ltb x y).
  assert (∀ x y, float_is_nan x = false → float_is_nan y = false →
                 float_ltb x y = lt' x y) as Hagree.
  { intros x y Hx Hy. unfold lt'. by rewrite Hx, Hy. }
  assert (∀ x, lt' x x = false) as Hirr.
  { intros x. unfold lt'. destruct (float_is_nan x); [done|].
    apply float_ltb_irrefl. }
  assert (∀ x y z, lt' x y = true → lt' y z = true → lt' x z = true) as Htr.
  { intros x y z. unfold lt'.
    destruct (float_is_nan x), (float_is_nan y), (float_is_nan z); try done.
    apply float_ltb_trans. }
  assert (∀ x y z, lt' x y = false → lt' y z = false → lt' x z = false) as Hneg.
  { intros x y z. unfold lt'.
    destruct (float_is_nan x), (float_is_nan y) eqn:Hy, (float_is_nan z);
      try done.
    by apply float_ltb_negtrans_nan. }
  assert (py_sorted float_ltb key l = py_sorted lt' key l) as Hext.
  { apply py_sorted_ext. rewrite Forall_forall in Hl.
    intros x y Hx Hy. apply Hagree; by apply Hl. }
  assert (Forall (λ a, float_is_nan (key a) = false) (py_sorted lt' key l))
    as Hl' by (by rewrite py_sorted_perm).
  rewrite Forall_forall in Hl'. rewrite Hext. split.
  - apply (StronglySorted_impl_on (key_le lt' key));
      [|by apply py_sorted_sorted].
    intros x y Hx Hy. unfold key_le. rewrite Hagree; [done|by apply Hl'..].
  - intros t Ht.
    transitivity (filter (λ a, key_tied lt' key t a = true) (py_sorted lt' key l)).
    { apply list_filter_ext_on, Forall_forall. intros a Ha.
      unfold key_tied. by rewrite !Hagree by (done || by apply Hl'). }
    rewrite (py_sorted_filter_tied lt' key Hneg t l).
    apply list_filter_ext_on. eapply Forall_impl; [exact Hl|].
    intros a Ha. simpl. unfold key_tied. by rewrite !Hagree.
Qed.

End float_sorted.

(** The floats of the clock are weakly ordered. *)
Lemma float_ltb_negtrans {F : Type} {float_F : PyFloat F} (x y z : F) :
  float_ltb x y = false → float_ltb y z = false → float_ltb x z = false.
Proof. apply float_ltb_negtrans_nan, float_no_nan. Qed.

(** ** Strings *)

Lemma app_String c s t : String c s +:+ t = String c (s +:+ t).
Proof. reflexivity. Qed.

Lemma app_empty_l t : "" +:+ t = t.
Proof. reflexivity. Qed.

Lemma app_empty_r s : s +:+ "" = s.
Proof. induction s as [|c s IH]; [done|]. by rewrite app_String, IH. Qed.

Lemma app_assoc_s s t u : (s +:+ t) +:+ u = s +:+ (t +:+ u).
Proof. induction s as [|c s IH]; [done|]. by rewrite !app_String, IH. Qed.

Lemma all_chars_app p s t :
  all_chars p (s +:+ t) = all_chars p s && all_chars p t.
Proof.
  induction s as [|c s IH]; [done|].
  rewrite app_String. simpl. by rewrite IH, andb_assoc.
Qed.

Lemma token_span p t1 t2 r1 r2 :
  all_chars p t1 = true → all_chars p t2 = true →
  token_end p r1 → token_end p r2 →
  t1 +:+ r1 = t2 +:+ r2 → t1 = t2 ∧ r1 = r2.
Proof.
  revert t2. induction t1 as [|c t1 IH]; intros [|c' t2] H1 H2 E1 E2 Heq.
  - done.
  - rewrite app_empty_l, app_String in Heq. subst r1. simpl in *.
    apply andb_true_iff in H2 as [H2 _]. congruence.
  - rewrite app_empty_l, app_String in Heq. subst r2. simpl in *.
    apply andb_true_iff in H1 as [H1 _]. congruence.
  - rewrite !app_String in Heq. simplify_eq. simpl in *.
    apply andb_true_iff in H1 as [_ H1]. apply andb_true_iff in H2 as [_ H2].
    destruct (IH t2) as [-> ->]; done.
Qed.

(** ** Integer literals *)

Lemma pretty_N_char_digit x : is_digit (pretty_N_char x) = true.
Proof. unfold pretty_N_char. by repeat case_match. Qed.

Lemma pretty_N_go_digits x s :
  ∃ d, pretty_N_go x s = d +:+ s ∧ all_chars is_digit d = true
       ∧ ((0 < x)%N → d ≠ "").
Proof.
  revert s. induction (N.lt_wf_0 x) as [x _ IH]; intros s.
  assert (x = 0 ∨ 0 < x)%N as [->|Hx] by lia.
  - exists "". rewrite pretty_N_go_0. split_and!; [done..|lia].
  - rewrite pretty_N_go_step by done.
    destruct (IH (x `div` 10)%N (N.div_lt x 10 Hx eq_refl)
                (String (pretty_N_char (x `mod` 10)) s)) as (d & -> & Hd & _).
    exists (d +:+ String (pretty_N_char (x `mod` 10)) "").
    rewrite app_assoc_s, app_String, app_empty_l. split_and!; [done| |].
    + rewrite all_chars_app, Hd. simpl. by rewrite pretty_N_char_digit.
    + intros _. by destruct d.
Qed.

Lemma pretty_N_digits (x : N) :
  all_chars is_digit (pretty x) = true ∧ pretty x ≠ "".
Proof.
  unfold pretty, pretty_N. case_decide as Hx; [done|].
  destruct (pretty_N_go_digits x "") as (d & -> & Hd & Hne).
  rewrite app_empty_r. split; [done|]. apply Hne. lia.
Qed.

Lemma all_chars_impl (p q : ascii → bool) s :
  (∀ c, p c = true → q c = true) → all_chars p s = true → all_chars q s = true.
Proof.
  intros Hpq. induction s as [|c s IH]; simpl; [done|].
  intros [Hc Hs]%andb_true_iff. by rewrite (Hpq c Hc), IH.
Qed.

Lemma pretty_Z_int_chars (z : Z) :
  all_chars int_char (pretty z) = true ∧ pretty z ≠ "".
Proof.
  assert (∀ p : positive, all_chars is_digit (pretty p) = true ∧ pretty p ≠ "")
    as Hpos by (intros p; apply (pretty_N_digits (Npos p))).
  assert (∀ s, all_chars is_digit s = true → all_chars int_char s = true) as Hd.
  { intros s. apply all_chars_impl. intros c Hc. unfold int_char. by rewrite Hc. }
  destruct z as [|p|p]; unfold pretty, pretty_Z.
  - done.
  - destruct (Hpos p); auto.
  - destruct (Hpos p). rewrite app_String, app_empty_l. split; [|done].
    simpl. auto.
Qed.

Lemma int_char_not_delim c : int_char c = true → negb (is_delim c) = true.
Proof.
  unfold int_char, is_digit.
  destruct c as [[] [] [] [] [] [] [] []]; vm_compute; done.
Qed.

(** ** String literals *)

Lemma unescape_escape_char c t :
  unescape_char (escape_char c +:+ t) = Some (c, t).
Proof. destruct c as [[] [] [] [] [] [] [] []]; reflexivity. Qed.

Lemma escape_char_inj c1 c2 t1 t2 :
  escape_char c1 +:+ t1 = escape_char c2 +:+ t2 → c1 = c2 ∧ t1 = t2.
Proof.
  intros E. apply (f_equal unescape_char) in E.
  rewrite !unescape_escape_char in E. by simplify_eq.
Qed.

Lemma escape_char_not_dquote c t r : escape_char c +:+ t ≠ String dquote r.
Proof.
  intros E. apply (f_equal unescape_char) in E.
  by rewrite unescape_escape_char in E.
Qed.

Lemma escape_inj s1 s2 r1 r2 :
  escape s1 +:+ String dquote r1 = escape s2 +:+ String dquote r2 →
  s1 = s2 ∧ r1 = r2.
Proof.
  revert s2. induction s1 as [|c s1 IH]; intros [|c' s2]; simpl.
  - rewrite !app_empty_l. by intros [= ->].
  - rewrite app_empty_l, app_assoc_s. intros E. symmetry in E.
    by apply escape_char_not_dquote in E.
  - rewrite app_empty_l, app_assoc_s. intros E.
    by apply escape_char_not_dquote in E.
  - rewrite !app_assoc_s. intros [-> E]%escape_char_inj.
    by destruct (IH _ E) as [-> ->].
Qed.

Section json_facts.
Context {F : Type} {float_F : PyDouble F}.

Lemma quote_inj s1 s2 r1 r2 :
  quote s1 +:+ r1 = quote s2 +:+ r2 → s1 = s2 ∧ r1 = r2.
Proof.
  unfold quote. rewrite !app_String, !app_assoc_s, !app_String, !app_empty_l.
  intros [= E]. by apply escape_inj.
Qed.

(** *** Induction on values *)

Lemma pyval_ind (P : pyval F → Prop) :
  P PNone → (∀ b, P (PBool b)) → (∀ z, P (PInt z)) → (∀ x, P (PFloat x)) →
  (∀ s, P (PStr s)) →
  (∀ l, Forall P l → P (PList l)) →
  (∀ l, Forall P l → P (PTuple l)) →
  (∀ d, Forall (λ kv, P kv.2) d → P (PDict d)) →
  ∀ v, P v.
Proof.
  intros HN HB HI HF HS HL HT HD.
  fix IH 1. intros [|b|z|x|s|l|l|d].
  - exact HN.
  - exact (HB b).
  - exact (HI z).
  - exact (HF x).
  - exact (HS s).
  - apply HL. induction l as [|x l IHl]; constructor; [exact (IH x)|exact IHl].
  - apply HT. induction l as [|x l IHl]; constructor; [exact (IH x)|exact IHl].
  - apply HD. induction d as [|[k x] d IHd]; constructor; [exact (IH x)|exact IHd].
Qed.

(** *** The first character tells the kind of value *)

Lemma int_char_class c s :
  all_chars int_char (String c s) = true → char_class c = 2.
Proof.
  simpl. intros [Hc _]%andb_true_iff. revert Hc. unfold int_char.
  destruct c as [[] [] [] [] [] [] [] []]; vm_compute; done.
Qed.

Lemma float_token_class c s : float_token (String c s) = true → char_class c = 2.
Proof.
  unfold float_token. intros [[Hc _]%andb_true_iff _]%andb_true_iff. revert Hc.
  destruct c as [[] [] [] [] [] [] [] []]; vm_compute; done.
Qed.

Lemma dumps_head (v : pyval F) t :
  ∃ c s, dumps v +:+ t = String c s ∧ char_class c = val_class v.
Proof.
  destruct v as [|[]|z|x|s|l|l|d]; simpl; try by eauto.
  - destruct (pretty_Z_int_chars z) as [Hz Hne].
    destruct (pretty z) as [|c s] eqn:E; [done|].
    exists c, (s +:+ t). split; [done|]. by eapply int_char_class.
  - pose proof (float_repr_token x) as Hx.
    destruct (float_repr x) as [|c s] eqn:E; [done|].
    exists c, (s +:+ t). split; [done|]. by eapply float_token_class.
Qed.

Lemma dumps_head_not_delim (v : pyval F) t :
  ∃ c s, dumps v +:+ t = String c s ∧ is_delim c = false.
Proof.
  destruct (dumps_head v t) as (c & s & E & Hc). exists c, s. split; [done|].
  revert Hc. destruct v; simpl;
    destruct c as [[] [] [] [] [] [] [] []]; vm_compute; done.
Qed.

End json_facts.

Section json_inj.
Context {F : Type} {float_F : PyDouble F}.

Lemma join_cons sep s (l : list string) t :
  join sep (s :: l) +:+ t
  = s +:+ match l with [] => t | _ => sep +:+ join sep l +:+ t end.
Proof. destruct l; [done|]. simpl. by rewrite !app_assoc_s. Qed.

(** Items separated by commas and closed by a bracket can be read back one
    by one, when each item can; [R] is what reading back an item tells. *)
Lemma join_inj {X} (pr : X → string) (R : X → X → Prop) (close : ascii)
    (l l' : list X) r1 r2 :
  is_delim close = true → close ≠ ","%char →
  (∀ x t, ∃ c s, pr x +:+ t = String c s ∧ is_delim c = false) →
  Forall (λ x, ∀ y t1 t2, token_end not_delim t1 → token_end not_delim t2 →
                 pr x +:+ t1 = pr y +:+ t2 → R x y ∧ t1 = t2) l →
  join ", " (map pr l) +:+ String close r1
  = join ", " (map pr l') +:+ String close r2 →
  Forall2 R l l' ∧ r1 = r2.
Proof.
  intros Hclose Hcomma Hhead Hl. revert l'.
  induction Hl as [|x l Hx Hl IH]; intros [|y l'].
  - simpl. rewrite !app_empty_l. intros [= ->]. split; [constructor|done].
  - simpl map. simpl join at 1. rewrite app_empty_l, join_cons.
    destruct (Hhead y (match map pr l' with
                       | [] => String close r2
                       | _ => ", " +:+ join ", " (map pr l') +:+ String close r2
                       end)) as (c & s & -> & Hc).
    intros [= <- _]. congruence.
  - simpl map. simpl join at 2. rewrite app_empty_l, join_cons.
    destruct (Hhead x (match map pr l with
                       | [] => String close r1
                       | _ => ", " +:+ join ", " (map pr l) +:+ String close r1
                       end)) as (c & s & -> & Hc).
    intros [= -> _]. congruence.
  - simpl map. rewrite !join_cons. intros E.
    apply Hx in E as [HR E].
    + destruct l as [|x' l], l' as [|y' l']; simpl in E.
      * simplify_eq. split; [by repeat constructor|done].
      * rewrite app_String in E. by simplify_eq.
      * rewrite app_String in E. by simplify_eq.
      * rewrite !app_String, !app_empty_l in E. simplify_eq.
        destruct (IH (y' :: l')) as [HF ->]; [done|].
        split; [by constructor|done].
    + destruct (map pr l); simpl; unfold not_delim; by rewrite ?Hclose.
    + destruct (map pr l'); simpl; unfold not_delim; by rewrite ?Hclose.
Qed.

Lemma Forall2_map_eq {X Y} (f : X → Y) (l l' : list X) :
  Forall2 (λ x y, f x = f y) l l' → map f l = map f l'.
Proof. induction 1; simpl; congruence. Qed.

Lemma float_repr_not_delim (x : F) :
  all_chars not_delim (float_repr x) = true.
Proof.
  pose proof (float_repr_token x) as Hx. unfold float_token in Hx.
  destruct (float_repr x); [done|].
  by apply andb_true_iff in Hx as [[_ Hx]%andb_true_iff _].
Qed.

Lemma pretty_Z_not_delim (z : Z) : all_chars not_delim (pretty z) = true.
Proof.
  eapply all_chars_impl; [|apply pretty_Z_int_chars].
  apply int_char_not_delim.
Qed.

Lemma float_repr_not_int (x : F) (z : Z) : float_repr x ≠ pretty z.
Proof.
  intros E. pose proof (float_repr_token x) as Hx. unfold float_token in Hx.
  destruct (float_repr x) eqn:Ex; [done|].
  apply andb_true_iff in Hx as [_ Hx]. apply negb_true_iff in Hx.
  rewrite E in Hx. by rewrite (proj1 (pretty_Z_int_chars z)) in Hx.
Qed.

Ltac head_clash :=
  match goal with
  | E : dumps ?a +:+ ?t1 = dumps ?b +:+ ?t2 |- _ =>
      let Ha := fresh "Ha" in
      let Hb := fresh "Hb" in
      destruct (dumps_head a t1) as (? & ? & Ha & ?);
      destruct (dumps_head b t2) as (? & ? & Hb & ?);
      rewrite Ha, Hb in E; simplify_eq; simpl in *; congruence
  end.

(** The encoder does not see the difference between a tuple and a list. *)
Lemma dumps_as_json (v : pyval F) : dumps (as_json v) = dumps v.
Proof.
  induction v as [|x|x|x|x|l IH|l IH|d IH] using pyval_ind; simpl; try done.
  - do 3 f_equal. rewrite map_map. apply map_ext_Forall.
    eapply Forall_impl; [exact IH|]. done.
  - do 3 f_equal. rewrite map_map. apply map_ext_Forall.
    eapply Forall_impl; [exact IH|]. done.
  - do 3 f_equal. rewrite map_map. apply map_ext_Forall.
    eapply Forall_impl; [exact IH|]. intros [k x] Hx. simpl in *. by rewrite Hx.
Qed.

(** Apart from that the encoder is injective, also in front of what
    follows a value in a list or a dict. *)
Lemma dumps_inj_gen (a : pyval F) :
  ∀ b t1 t2, token_end not_delim t1 → token_end not_delim t2 →
    dumps a +:+ t1 = dumps b +:+ t2 → as_json a = as_json b ∧ t1 = t2.
Proof.
  induction a as [|x|x|x|x|l IH|l IH|d IH] using pyval_ind;
    intros b t1 t2 E1 E2 E.
  - destruct b; try by head_clash.
    simpl in E. by simplify_eq.
  - destruct b as [|y| | | | | |]; try by head_clash.
    destruct x, y; simpl in E; by simplify_eq.
  - destruct b as [| |y|y| | | |]; try by head_clash.
    + simpl in E. apply (token_span not_delim) in E as [E ->];
        auto using pretty_Z_not_delim.
      by apply (inj pretty) in E as ->.
    + simpl in E. apply (token_span not_delim) in E as [E ->];
        auto using pretty_Z_not_delim, float_repr_not_delim.
      symmetry in E. by apply float_repr_not_int in E.
  - destruct b as [| |y|y| | | |]; try by head_clash.
    + simpl in E. apply (token_span not_delim) in E as [E ->];
        auto using pretty_Z_not_delim, float_repr_not_delim.
      by apply float_repr_not_int in E.
    + simpl in E. apply (token_span not_delim) in E as [E ->];
        auto using float_repr_not_delim.
      by apply float_repr_inj in E as ->.
  - destruct b as [| | | |y| | |]; try by head_clash.
    simpl in E. by apply quote_inj in E as [-> ->].
  - destruct b as [| | | | |l'|l'|]; try by head_clash.
    all: simpl in E; rewrite !app_String, !app_empty_l, !app_assoc_s in E.
    all: rewrite !app_String, !app_empty_l in E; simplify_eq.
    all: apply (join_inj dumps (λ x y, as_json x = as_json y)) in E
           as [E ->]; [|done|done|apply dumps_head_not_delim|done].
    all: simpl; by rewrite (Forall2_map_eq _ _ _ E).
  - destruct b as [| | | | |l'|l'|]; try by head_clash.
    all: simpl in E; rewrite !app_String, !app_empty_l, !app_assoc_s in E.
    all: rewrite !app_String, !app_empty_l in E; simplify_eq.
    all: apply (join_inj dumps (λ x y, as_json x = as_json y)) in E
           as [E ->]; [|done|done|apply dumps_head_not_delim|done].
    all: simpl; by rewrite (Forall2_map_eq _ _ _ E).
  - destruct b as [| | | | | | |d']; try by head_clash.
    simpl in E. rewrite !app_String, !app_empty_l, !app_assoc_s in E.
    rewrite !app_String, !app_empty_l in E. simplify_eq.
    apply (join_inj _ (λ kv kv', kv.1 = kv'.1 ∧ as_json kv.2 = as_json kv'.2))
      in E as [E ->]; [|done|done| |].
    + split; [|done]. simpl. f_equal. clear -E.
      induction E as [|[k x] [k' y] ? ? [Hk Hx] _ IHE]; simpl in *; [done|].
      by rewrite Hk, Hx, IHE.
    + intros [k x] t. unfold quote. rewrite app_String.
      eexists _, _. split; [done|]. done.
    + eapply Forall_impl; [exact IH|]. intros [k x] Hx [k' y] u1 u2 Hu1 Hu2.
      simpl in Hx.
      rewrite !app_assoc_s. intros [-> Ekv]%quote_inj.
      rewrite !app_String, !app_empty_l in Ekv. simplify_eq.
      destruct (Hx y u1 u2) as [Hxy ->]; done.
Qed.

(** Two values have the same text exactly when they are read back as the
    same value. *)
Lemma dumps_inj (a b : pyval F) : dumps a = dumps b ↔ as_json a = as_json b.
Proof.
  split.
  - intros E. apply (dumps_inj_gen a b "" ""); [done..|].
    by rewrite !app_empty_r.
  - intros E. by rewrite <- (dumps_as_json a), E, dumps_as_json.
Qed.

End json_inj.

(** ** The order on keys *)

Lemma string_ltb_leb a b : String.ltb a b = negb (String.leb b a).
Proof.
  unfold String.ltb, String.leb. rewrite (String.compare_antisym b a).
  by destruct (String.compare a b).
Qed.

Lemma string_ltb_false a b : String.ltb a b = false ↔ String.le b a.
Proof.
  rewrite string_ltb_leb, negb_false_iff. unfold String.le.
  by rewrite Is_true_true.
Qed.

Lemma string_ltb_irrefl a : String.ltb a a = false.
Proof. by apply string_ltb_false. Qed.

Lemma string_ltb_negtrans a b c :
  String.ltb a b = false → String.ltb b c = false → String.ltb a c = false.
Proof. rewrite !string_ltb_false. intros ??. by etrans. Qed.

Lemma string_ltb_total a b :
  String.ltb a b = false → String.ltb b a = false → a = b.
Proof. rewrite !string_ltb_false. intros ??. by apply (anti_symm String.le). Qed.

Lemma string_ltb_trans a b c :
  String.ltb a b = true → String.ltb b c = true → String.ltb a c = true.
Proof.
  intros Hab Hbc. destruct (String.ltb a c) eqn:Hac; [done|].
  apply string_ltb_false in Hac.
  destruct (total String.le a b) as [Hle|Hle].
  - assert (String.le c b) as Hcb by (by etrans).
    apply string_ltb_false in Hcb. congruence.
  - apply string_ltb_false in Hle. congruence.
Qed.

Section canon_facts.
Context {F : Type} {float_F : PyDouble F}.

Implicit Types (d : list (string * pyval F)) (l : list (pyval F)).

Lemma canon_items_keys d : map fst (canon_items d) = map fst d.
Proof. induction d as [|[k x] d IH]; simpl; by f_equal. Qed.

Lemma sort_items_perm d : sort_items d ≡ₚ d.
Proof. apply py_sorted_perm. Qed.

Lemma sort_items_unique d d' :
  NoDup (map fst d) → d ≡ₚ d' → sort_items d = sort_items d'.
Proof.
  apply py_sorted_unique;
    eauto using string_ltb_irrefl, string_ltb_trans, string_ltb_negtrans,
      string_ltb_total.
Qed.

Lemma pyval_wf_list l : pyval_wf (PList l) ↔ Forall pyval_wf l.
Proof.
  simpl. induction l as [|x l IH]; simpl.
  - split; [constructor|done].
  - rewrite Forall_cons, IH. done.
Qed.

Lemma pyval_wf_tuple l : pyval_wf (PTuple l) ↔ Forall pyval_wf l.
Proof. apply pyval_wf_list. Qed.

Lemma pyval_wf_dict d :
  pyval_wf (PDict d) ↔ NoDup (map fst d) ∧ Forall (λ kv, pyval_wf kv.2) d.
Proof.
  simpl. apply and_iff_compat_l. induction d as [|[k x] d IH]; simpl.
  - split; [constructor|done].
  - rewrite Forall_cons, IH. done.
Qed.

Lemma dict_lookup_elem_of k x d : dict_lookup k d = Some x → (k, x) ∈ d.
Proof.
  induction d as [|[k' y] d IH]; simpl; [done|].
  destruct (String.eqb_spec k k') as [->|Hne].
  - intros [= ->]. by left.
  - intros ?. right. auto.
Qed.

Lemma elem_of_dict_lookup k x d :
  NoDup (map fst d) → (k, x) ∈ d → dict_lookup k d = Some x.
Proof.
  induction d as [|[k' y] d IH]; simpl; [by intros _ ?%elem_of_nil|].
  intros [Hk Hd]%NoDup_cons [[= -> ->]|Hin]%elem_of_cons.
  - by rewrite String.eqb_refl.
  - destruct (String.eqb_spec k k') as [->|Hne]; [|by auto].
    destruct Hk. apply list_elem_of_fmap. by exists (k', x).
Qed.


Lemma elem_of_canon_items k x d :
  (k, x) ∈ canon_items d ↔ ∃ y, (k, y) ∈ d ∧ x = canon y.
Proof.
  induction d as [|[k' z] d IH]; simpl.
  - split; [by intros ?%elem_of_nil|by intros (? & ?%elem_of_nil & _)].
  - rewrite elem_of_cons, IH. split.
    + intros [[= -> ->]|(y & ? & ->)]; [exists z|exists y];
        (split; [|done]); [by left|by right].
    + intros (y & [[= -> ->]|Hy]%elem_of_cons & ->); [by left|right; eauto].
Qed.

(** The comparison of two lists, element by element. *)
Lemma pyval_eqb_list l l' :
  pyval_eqb (PList l) (PList l') = true
  ↔ Forall2 (λ x y, pyval_eqb x y = true) l l'.
Proof.
  simpl. revert l'. induction l as [|x l IH]; intros [|y l'].
  - split; [constructor|done].
  - split; [done|inversion 1].
  - split; [done|inversion 1].
  - rewrite andb_true_iff, IH, Forall2_cons. done.
Qed.

Lemma pyval_eqb_tuple l l' :
  pyval_eqb (PTuple l) (PTuple l') = true
  ↔ Forall2 (λ x y, pyval_eqb x y = true) l l'.
Proof. apply pyval_eqb_list. Qed.

Lemma pyval_eqb_dict d d' :
  pyval_eqb (PDict d) (PDict d') = true
  ↔ length d = length d'
    ∧ Forall (λ kv, ∃ y, dict_lookup kv.1 d' = Some y ∧ pyval_eqb kv.2 y = true) d.
Proof.
  simpl. rewrite andb_true_iff, bool_decide_eq_true. apply and_iff_compat_l.
  induction d as [|[k x] d IH]; simpl.
  - split; [constructor|done].
  - rewrite andb_true_iff, Forall_cons, IH. apply and_iff_compat_r. simpl.
    destruct (dict_lookup k d') as [y|]; split; try done; eauto.
    + by intros (? & [= <-] & ?).
    + by intros (? & ? & ?).
Qed.

(** Two well-formed values are the same exactly when [sort_keys] brings
    them to the same value. *)
Lemma canon_eqb (a : pyval F) :
  ∀ b, pyval_wf a → pyval_wf b → (pyval_eqb a b = true ↔ canon a = canon b).
Proof.
  induction a as [|x|x|x|x|l IH|l IH|d IH] using pyval_ind; intros b Ha Hb.
  - destruct b; simpl; done.
  - destruct b; simpl; try done. rewrite bool_decide_eq_true. naive_solver.
  - destruct b; simpl; try done. rewrite bool_decide_eq_true. naive_solver.
  - destruct b; simpl; try done. rewrite bool_decide_eq_true. naive_solver.
  - destruct b; simpl; try done. rewrite bool_decide_eq_true. naive_solver.
  - destruct b as [| | | | |l'| |]; try done.
    rewrite pyval_eqb_list. apply pyval_wf_list in Ha, Hb.
    transitivity (map canon l = map canon l');
      [|simpl; split; [by intros ->|by intros [= ->]]].
    clear -IH Ha Hb. revert l' Hb.
    induction IH as [|x l Hx _ IHl]; intros [|y l'] Hb.
    + split; [done|constructor].
    + split; [inversion 1|done].
    + split; [inversion 1|done].
    + apply Forall_cons in Ha as [Hax Hal]. apply Forall_cons in Hb as [Hby Hbl].
      rewrite Forall2_cons, (Hx y Hax Hby), (IHl Hal l' Hbl). simpl.
      split; [by intros [-> ->]|by intros [= -> ->]].
  - destruct b as [| | | | | |l'|]; try done.
    rewrite pyval_eqb_tuple. apply pyval_wf_tuple in Ha, Hb.
    transitivity (map canon l = map canon l');
      [|simpl; split; [by intros ->|by intros [= ->]]].
    clear -IH Ha Hb. revert l' Hb.
    induction IH as [|x l Hx _ IHl]; intros [|y l'] Hb.
    + split; [done|constructor].
    + split; [inversion 1|done].
    + split; [inversion 1|done].
    + apply Forall_cons in Ha as [Hax Hal]. apply Forall_cons in Hb as [Hby Hbl].
      rewrite Forall2_cons, (Hx y Hax Hby), (IHl Hal l' Hbl). simpl.
      split; [by intros [-> ->]|by intros [= -> ->]].
  - destruct b as [| | | | | | |d']; try done.
    rewrite pyval_eqb_dict.
    apply pyval_wf_dict in Ha as [Hnd Ha]. apply pyval_wf_dict in Hb as [Hnd' Hb].
    fold (canon_items d) (canon_items d').
    transitivity (sort_items (canon_items d) = sort_items (canon_items d'));
      [|simpl; fold (canon_items d) (canon_items d');
        split; [by intros ->|by intros [= ->]]].
    rewrite Forall_forall in IH, Ha, Hb. split.
    + intros [Hlen Hall]. rewrite Forall_forall in Hall.
      apply sort_items_unique; [by rewrite canon_items_keys|].
      apply submseteq_length_Permutation.
      * apply NoDup_submseteq.
        { eapply NoDup_fmap_1. by rewrite canon_items_keys. }
        intros [k x] (z & Hz & ->)%elem_of_canon_items.
        destruct (Hall _ Hz) as (y & Hy & Hzy). simpl in *.
        apply dict_lookup_elem_of in Hy.
        apply elem_of_canon_items. exists y. split; [done|].
        apply (IH _ Hz); [by apply (Ha _ Hz)|by apply (Hb _ Hy)|done].
      * unfold canon_items. rewrite !length_map. lia.
    + intros E.
      assert (canon_items d ≡ₚ canon_items d') as Hperm.
      { by rewrite <- (sort_items_perm (canon_items d)), E, sort_items_perm. }
      split.
      * apply Permutation_length in Hperm. unfold canon_items in Hperm.
        by rewrite !length_map in Hperm.
      * apply Forall_forall. intros [k x] Hx. simpl.
        assert ((k, canon x) ∈ canon_items d') as (y & Hy & Hxy)%elem_of_canon_items.
        { rewrite <- Hperm. apply elem_of_canon_items. eauto. }
        exists y. split; [by apply elem_of_dict_lookup|].
        apply (IH _ Hx); [by apply (Ha _ Hx)|by apply (Hb _ Hy)|done].
Qed.

(** Reading back and sorting the keys can be done in either order, and
    what is read back from a dict is a dict. *)
Lemma as_json_canon (v : pyval F) : as_json (canon v) = canon (as_json v).
Proof.
  induction v as [|x|x|x|x|l IH|l IH|d IH] using pyval_ind; simpl; try done.
  - f_equal. rewrite !map_map. apply map_ext_Forall.
    eapply Forall_impl; [exact IH|]. done.
  - f_equal. rewrite !map_map. apply map_ext_Forall.
    eapply Forall_impl; [exact IH|]. done.
  - f_equal. unfold sort_items.
    rewrite <- (py_sorted_map String.ltb fst
                  (λ kv, let '(k, x) := kv in (k, as_json x)))
      by (by intros [??]).
    f_equal. rewrite !map_map. apply map_ext_Forall.
    eapply Forall_impl; [exact IH|]. intros [k x] Hx. simpl in *. by rewrite Hx.
Qed.

Lemma as_json_wf (v : pyval F) : pyval_wf v → pyval_wf (as_json v).
Proof.
  induction v as [|x|x|x|x|l IH|l IH|d IH] using pyval_ind; try done.
  - rewrite pyval_wf_list. intros Hl. apply pyval_wf_list.
    change (map as_json l) with (as_json <$> l). apply Forall_fmap.
    rewrite Forall_forall in IH, Hl. apply Forall_forall. intros x Hx.
    by apply IH, Hl.
  - rewrite pyval_wf_tuple. intros Hl. apply pyval_wf_list.
    change (map as_json l) with (as_json <$> l). apply Forall_fmap.
    rewrite Forall_forall in IH, Hl. apply Forall_forall. intros x Hx.
    by apply IH, Hl.
  - rewrite pyval_wf_dict. intros [Hnd Hd]. apply pyval_wf_dict. split.
    + rewrite map_map. erewrite map_ext; [exact Hnd|]. by intros [??].
    + change (map ?f d) with (f <$> d). apply Forall_fmap.
      rewrite Forall_forall in IH, Hd. apply Forall_forall. intros [k x] Hx.
      simpl. by apply (IH _ Hx), (Hd _ Hx).
Qed.

(** [json.dumps(..., sort_keys=True)] gives the same text exactly for the
    same JSON values. *)
Lemma dumps_sorted_json (a b : pyval F) :
  pyval_wf a → pyval_wf b →
  (dumps_sorted a = dumps_sorted b ↔ json_eqb a b = true).
Proof.
  intros Ha Hb. unfold json_eqb, dumps_sorted.
  rewrite canon_eqb by (by apply as_json_wf).
  by rewrite dumps_inj, !as_json_canon.
Qed.

(** Values of the same type and content are the same JSON value, and have
    the same text. *)
Lemma pyval_eqb_json (a b : pyval F) :
  pyval_wf a → pyval_wf b → pyval_eqb a b = true → json_eqb a b = true.
Proof.
  intros Ha Hb E. apply dumps_sorted_json; [done..|].
  apply canon_eqb in E; [|done..]. unfold dumps_sorted. by rewrite E.
Qed.

End canon_facts.

Section ledger_facts.
Context {F : Type} {float_F : PyDouble F} {sha256 : Sha256}.
Implicit Types (self : Blockchain F) (b : Block F) (tx : Transaction F).

(** *** [is_chain_valid] *)

Lemma chain_valid_loop_false (chain : list (Block F)) idxs i cur prev :
  i ∈ idxs → chain !! i = Some cur → chain !! (i - 1) = Some prev →
  hash cur ≠ Some (compute_hash cur) ∨ Some (previous_hash cur) ≠ hash prev →
  chain_valid_loop chain idxs = false.
Proof.
  intros Hi Hcur Hprev Hbad.
  induction idxs as [|k idxs IH]; [by apply elem_of_nil in Hi|].
  simpl. apply elem_of_cons in Hi as [<-|Hi].
  - rewrite Hcur, Hprev.
    destruct Hbad; repeat case_bool_decide; first [done|contradiction|tauto].
  - repeat case_match; auto.
Qed.

Lemma is_chain_valid_false self i cur prev :
  1 ≤ i → chain self !! i = Some cur → chain self !! (i - 1) = Some prev →
  hash cur ≠ Some (compute_hash cur) ∨ Some (previous_hash cur) ≠ hash prev →
  is_chain_valid self = false.
Proof.
  intros Hi Hcur Hprev Hbad. unfold is_chain_valid.
  apply (chain_valid_loop_false _ _ i cur prev); [|done..].
  apply lookup_lt_Some in Hcur. apply elem_of_seq. lia.
Qed.

(** *** The index *)

Lemma index_transaction_lookup (idx : gmap string (list (Transaction F))) tx v :
  default [] (_index_transaction idx tx !! v)
  = default [] (idx !! v) ++ (if decide (vin tx = v) then [tx] else []).
Proof.
  unfold _index_transaction. case_decide as Hv.
  - subst v. by rewrite lookup_insert_eq.
  - rewrite lookup_insert_ne by done. by rewrite app_nil_r.
Qed.

Lemma index_transactions_lookup (idx : gmap string (list (Transaction F))) txs v :
  default [] (foldl _index_transaction idx txs !! v)
  = default [] (idx !! v) ++ filter (λ tx, vin tx = v) txs.
Proof.
  revert idx. induction txs as [|tx txs IH]; intros idx; simpl.
  - by rewrite app_nil_r.
  - rewrite IH, index_transaction_lookup, filter_cons, <- app_assoc.
    by case_decide.
Qed.

Lemma index_chain_lookup (idx : gmap string (list (Transaction F))) chain v :
  default [] (foldl _index_block idx chain !! v)
  = default [] (idx !! v) ++ chain_history chain v.
Proof.
  revert idx. induction chain as [|b chain IH]; intros idx; simpl.
  - by rewrite app_nil_r.
  - rewrite IH. unfold _index_block. rewrite index_transactions_lookup.
    unfold chain_history. simpl. by rewrite app_assoc.
Qed.

Lemma index_transaction_dom (idx : gmap string (list (Transaction F))) tx :
  dom (_index_transaction idx tx) = {[vin tx]} ∪ dom idx.
Proof. unfold _index_transaction. by rewrite dom_insert_L. Qed.

Lemma index_transactions_dom (idx : gmap string (list (Transaction F))) txs :
  dom (foldl _index_transaction idx txs) = list_to_set (vin <$> txs) ∪ dom idx.
Proof.
  revert idx. induction txs as [|tx txs IH]; intros idx; simpl.
  - set_solver.
  - rewrite IH, index_transaction_dom. set_solver.
Qed.

Lemma index_chain_dom (idx : gmap string (list (Transaction F))) chain :
  dom (foldl _index_block idx chain)
  = list_to_set (vin <$> chain_transactions chain) ∪ dom idx.
Proof.
  revert idx. induction chain as [|b chain IH]; intros idx; simpl.
  - set_solver.
  - rewrite IH. unfold _index_block. rewrite index_transactions_dom.
    unfold chain_transactions. simpl. rewrite fmap_app, list_to_set_app_L.
    set_solver.
Qed.

Lemma index_chain_size chain :
  size (foldl _index_block (∅ : gmap string (list (Transaction F))) chain)
  = length (remove_dups (vin <$> chain_transactions chain)).
Proof.
  rewrite <- size_dom, index_chain_dom, dom_empty_L, union_empty_r_L.
  set (vins := vin <$> chain_transactions chain).
  assert (list_to_set vins =@{gset string} list_to_set (remove_dups vins)) as ->.
  { apply set_eq. intros x. by rewrite !elem_of_list_to_set, elem_of_remove_dups. }
  rewrite size_list_to_set; [done|]. apply NoDup_remove_dups.
Qed.

(** The incrementally maintained index is the index built from the chain. *)
Lemma reachable_index self :
  reachable self → vin_index self = foldl _index_block ∅ (chain self).
Proof.
  induction 1 as [now|tx self _ IH|now n p self _ IH|self _ IH]; simpl.
  - done.
  - done.
  - by rewrite foldl_app, IH.
  - done.
Qed.

End ledger_facts.

Section ledger_theorems.
Context {F : Type} {float_F : PyDouble F} {sha256 : Sha256}.
Implicit Types (self : Blockchain F) (b : Block F) (tx : Transaction F).

(** *** Canonical forms of the serialised records *)

Lemma canon_opt_str (o : option string) : canon (opt_str (F:=F) o) = opt_str o.
Proof. by destruct o. Qed.

Lemma canon_tx_data tx :
  canon (tx_data tx)
  = PDict [("actor_id", PStr (actor_id tx));
           ("payload", canon (PDict (payload tx)));
           ("role", PStr (role tx));
           ("timestamp", PFloat (timestamp tx));
           ("type", PStr (type tx));
           ("vin", PStr (vin tx))].
Proof. reflexivity. Qed.

Lemma canon_to_dict tx :
  canon (to_dict tx)
  = PDict [("actor_id", PStr (actor_id tx));
           ("payload", canon (PDict (payload tx)));
           ("role", PStr (role tx));
           ("signature", opt_str (signature tx));
           ("timestamp", PFloat (timestamp tx));
           ("tx_id", opt_str (tx_id tx));
           ("type", PStr (type tx));
           ("vin", PStr (vin tx))].
Proof. destruct tx as [? ? ? ? ? ? [?|] [?|]]; reflexivity. Qed.



Lemma tx_data_wf tx : tx_wf tx → pyval_wf (tx_data tx).
Proof.
  intros Hp. unfold tx_data. apply pyval_wf_dict. split.
  - simpl. apply (bool_decide_unpack _). by vm_compute.
  - repeat (apply Forall_cons; split); try apply Forall_nil; simpl; done.
Qed.




(** *** Reachable ledgers *)

Lemma reachable_sealed self b :
  reachable self → b ∈ chain self → hash b = Some (compute_hash b).
Proof.
  induction 1 as [now|tx self _ IH|now n p self _ IH|self _ IH]; simpl; auto.
  - by intros ->%list_elem_of_singleton.
  - intros [Hb| ->%list_elem_of_singleton]%elem_of_app; auto.
Qed.



Lemma reachable_submit_all txs self :
  reachable self → reachable (submit_all txs self).1.
Proof.
  revert self. induction txs as [|tx txs IH]; intros self Hreach; [done|].
  specialize (IH _ (reachable_add tx self Hreach)). simpl in *.
  by destruct (submit_all txs _).
Qed.

Lemma reachable_index_lookup self v :
  reachable self →
  default [] (vin_index self !! v) = chain_history (chain self) v.
Proof. intros Hreach. by rewrite (reachable_index self Hreach), index_chain_lookup. Qed.

Lemma submit_all_spec txs self :
  submit_all txs self
  = (mkBlockchain (chain self) (transactions self ++ txs) (vin_index self),
     replicate (length txs) (length (chain self) + 1)).
Proof.
  revert self. induction txs as [|tx txs IH]; intros self; simpl.
  - rewrite app_nil_r. by destruct self.
  - rewrite IH. simpl. by rewrite <- app_assoc.
Qed.

Lemma history_sorted_id self v l :
  vin_index self !! v = Some l →
  StronglySorted (key_le float_ltb timestamp) l →
  get_vehicle_history self v = l.
Proof.
  intros Hl Hs. unfold get_vehicle_history. rewrite Hl. by apply py_sorted_id.
Qed.

Lemma mileage_step_skip m tx : sets_mileage tx = false → mileage_step m tx = m.
Proof.
  unfold sets_mileage, mileage_step.
  intros [-> ->]%orb_false_iff. done.
Qed.

Lemma dict_has_false k (d : list (string * pyval F)) dflt :
  dict_has k d = false → dict_get d k dflt = dflt.
Proof.
  unfold dict_has, dict_get. intros Hk%bool_decide_eq_false.
  destruct (dict_lookup k d); [|done]. destruct Hk. eauto.
Qed.

Lemma info_step_keeps_none i tx :
  sets_mileage tx = false → latest_mileage i = PNone →
  latest_mileage (info_step i tx) = PNone.
Proof.
  unfold sets_mileage, info_step. intros [H1 H2]%orb_false_iff Hi.
  repeat case_bool_decide; simpl in *; try done;
    by apply dict_has_false.
Qed.

End ledger_theorems.

(** ** The concrete clock is a clock *)

Lemma whole_repr_inj x y : whole_repr x = whole_repr y → x = y.
Proof.
  unfold whole_repr. intros E.
  apply (token_span int_char) in E as [E _];
    try apply pretty_Z_int_chars; try done.
  by apply (inj pretty) in E.
Qed.

Lemma whole_repr_token z : float_token (whole_repr z) = true.
Proof.
  unfold whole_repr, float_token.
  destruct (pretty_Z_int_chars z) as [Hc Hne].
  destruct (pretty z) as [|c s] eqn:E; [done|].
  rewrite app_String, <- (app_String c s ".0"), !all_chars_app.
  rewrite (all_chars_impl int_char (λ c, negb (is_delim c)) _ int_char_not_delim Hc).
  rewrite Hc. simpl in Hc. apply andb_true_iff in Hc as [Hc _].
  unfold int_char in Hc. apply orb_true_iff in Hc as [->| ->]; simpl;
    by rewrite ?orb_true_r.
Qed.

#[global] Instance whole_double : PyDouble Z := {|
  float_ltb := Z.ltb;
  float_is_nan := λ _, false;
  float_eq_int := Z.eqb;
  float_repr := whole_repr;
  float_ltb_irrefl := Z.ltb_irrefl;
  float_ltb_trans x y z :=
    λ Hxy Hyz, proj2 (Z.ltb_lt x z)
      (Z.lt_trans x y z (proj1 (Z.ltb_lt x y) Hxy) (proj1 (Z.ltb_lt y z) Hyz));
  float_ltb_nan x y := λ H : false = true, False_ind _ (Bool.diff_false_true H);
  float_ltb_negtrans_nan x y z :=
    λ _ Hxy Hyz, proj2 (Z.ltb_ge x z)
      (Z.le_trans z y x (proj1 (Z.ltb_ge y z) Hyz) (proj1 (Z.ltb_ge x y) Hxy));
  float_repr_inj := whole_repr_inj;
  float_repr_token := whole_repr_token
|}.

#[global] Instance whole_float : PyFloat Z := {|
  float_double := whole_double;
  float_no_nan := λ _, eq_refl
|}.

(** ** The floats with NaN are floats *)

#[global] Instance whole_or_nan_eq_dec : EqDecision whole_or_nan.
Proof. solve_decision. Defined.

Lemma nan_ltb_irrefl x : nan_ltb x x = false.
Proof. destruct x; simpl; [apply Z.ltb_irrefl|done]. Qed.

Lemma nan_ltb_trans x y z :
  nan_ltb x y = true → nan_ltb y z = true → nan_ltb x z = true.
Proof. destruct x, y, z; simpl; try done. rewrite !Z.ltb_lt. lia. Qed.

Lemma nan_ltb_nan x y :
  nan_is_nan x = true → nan_ltb x y = false ∧ nan_ltb y x = false.
Proof. destruct x, y; done. Qed.

Lemma nan_ltb_negtrans x y z :
  nan_is_nan y = false →
  nan_ltb x y = false → nan_ltb y z = false → nan_ltb x z = false.
Proof.
  destruct x, y, z; simpl; try done. intros _. rewrite !Z.ltb_ge. lia.
Qed.

Lemma nan_repr_inj x y : nan_repr x = nan_repr y → x = y.
Proof.
  assert (∀ z, whole_repr z ≠ "NaN") as Hne.
  { intros z E. pose proof (pretty_Z_int_chars z) as [Hc Hz].
    unfold whole_repr in E. destruct (pretty z) as [|c r]; [done|].
    rewrite app_String in E. injection E as -> _. done. }
  destruct x as [a|], y as [b|]; simpl; intros E.
  - by apply whole_repr_inj in E as ->.
  - by apply Hne in E.
  - symmetry in E. by apply Hne in E.
  - done.
Qed.

Lemma nan_repr_token x : float_token (nan_repr x) = true.
Proof. destruct x; [apply whole_repr_token|done]. Qed.

#[global] Instance nan_double : PyDouble whole_or_nan := {|
  float_ltb := nan_ltb;
  float_is_nan := nan_is_nan;
  float_eq_int := nan_eq_int;
  float_repr := nan_repr;
  float_ltb_irrefl := nan_ltb_irrefl;
  float_ltb_trans := nan_ltb_trans;
  float_ltb_nan := nan_ltb_nan;
  float_ltb_negtrans_nan := nan_ltb_negtrans;
  float_repr_inj := nan_repr_inj;
  float_repr_token := nan_repr_token
|}.

(** ** Ledgers to evaluate on *)

Section demo.
#[local] Existing Instance plain_digest.
#[local] Existing Instance plain_signer.
#[local] Open Scope Z_scope.

(** The ledger of [test_chain_validity]: genesis, then one block with one
    transaction, linked to the hash of the genesis block. *)
Definition demo_tx : Transaction Z := Transaction_init 5 "V1" "TEST" "u1" "role" [].
Definition demo_genesis : Blockchain Z := Blockchain_init 1.
Definition demo_pool : Blockchain Z := (add_transaction demo_tx demo_genesis).1.
Definition demo_sealed : Blockchain Z * Block Z :=
  create_block 7 1 (default "" (get_last_block demo_pool ≫= hash)) demo_pool.
Definition demo_ledger : Blockchain Z := demo_sealed.1.

(** [self.bc.chain[1].transactions[0].vin = "HACKED-VIN"] *)
Definition demo_hacked_tx : Transaction Z := set_vin demo_tx "HACKED-VIN".
Definition demo_hacked_block : Block Z :=
  set_block_transactions demo_sealed.2 [demo_hacked_tx].
Definition demo_hacked : Blockchain Z :=
  set_chain demo_ledger (<[1%nat := demo_hacked_block]> (chain demo_ledger)).

(** The link of block 2 redirected, and the block sealed again. *)
Definition demo_relinked_block : Block Z :=
  let b := set_previous_hash demo_sealed.2 "ff" in
  set_hash b (Some (compute_hash b)).
Definition demo_relinked : Blockchain Z :=
  set_chain demo_ledger (<[1%nat := demo_relinked_block]> (chain demo_ledger)).

(** The link of the genesis block redirected. *)
Definition demo_genesis_block : Block Z :=
  default demo_sealed.2 (chain demo_ledger !! 0%nat).
Definition demo_regenesis : Blockchain Z :=
  set_chain demo_ledger
    (<[0%nat := set_previous_hash demo_genesis_block "ff"]> (chain demo_ledger)).

(** Two vehicles, timestamps out of order and tied. *)
Definition demo_a : Transaction Z :=
  Transaction_init 5 "V1" "SERVICE_RECORD" "mech1" "MECHANIC" [].
Definition demo_b : Transaction Z :=
  Transaction_init 3 "V1" "SERVICE_RECORD" "mech2" "MECHANIC" [].
Definition demo_c : Transaction Z :=
  Transaction_init 5 "V1" "ACCIDENT_RECORD" "ins1" "INSURER" [].
Definition demo_d : Transaction Z :=
  Transaction_init 4 "V2" "SERVICE_RECORD" "mech1" "MECHANIC" [].
Definition demo_history : Blockchain Z :=
  submit_and_seal demo_c 9 2 "h1"
    (create_block 8 1 "h0"
       (submit_all [demo_a; demo_d; demo_b] (Blockchain_init 1)).1).1.

(** The same fields, the payload keys inserted in another order, and a
    signature on one side. *)
Definition demo_make_year : Transaction Z :=
  mkTransaction "V1" "VEHICLE_CREATED" "m1" "MANUFACTURER" 2
    [("make", PStr "Acme"); ("year", PInt 2024)] None None.
Definition demo_year_make : Transaction Z :=
  mkTransaction "V1" "VEHICLE_CREATED" "m1" "MANUFACTURER" 2
    [("year", PInt 2024); ("make", PStr "Acme")] None (Some "abcd").

(** Mileage histories: a creation, a mileage update without its key, and
    possibly a later update with it. *)
Definition demo_created : Transaction Z :=
  Transaction_init 2 "V1" "VEHICLE_CREATED" "m1" "MANUFACTURER"
    [("make", PStr "Acme"); ("model", PStr "X"); ("year", PInt 2024);
     ("initial_mileage", PInt 100)].
Definition demo_keyless : Transaction Z :=
  Transaction_init 3 "V1" "MILEAGE_UPDATE" "mech1" "MECHANIC" [].
Definition demo_update : Transaction Z :=
  Transaction_init 4 "V1" "MILEAGE_UPDATE" "mech1" "MECHANIC"
    [("new_mileage", PInt 500)].
Definition demo_service : Transaction Z :=
  Transaction_init 4 "V1" "SERVICE_RECORD" "mech1" "MECHANIC" [].
Definition demo_keyless_last : Blockchain Z :=
  (create_block 9 1 "h0"
     (submit_all [demo_created; demo_keyless; demo_service] (Blockchain_init 1)).1).1.
Definition demo_keyless_then_update : Blockchain Z :=
  (create_block 9 1 "h0"
     (submit_all [demo_created; demo_keyless; demo_update] (Blockchain_init 1)).1).1.

(** A transaction without vehicle and with an event type of no list. *)
Definition demo_blank : Transaction Z := Transaction_init 5 "" "TEST" "u1" "role" [].


(** Two transactions whose fields are [==]: the year as an integer and as
    a float, a flag as [True] and as [1]. *)
Definition demo_int_year : Transaction Z :=
  mkTransaction "V1" "VEHICLE_CREATED" "m1" "MANUFACTURER" 2
    [("year", PInt 2024); ("imported", PBool true)] None None.
Definition demo_float_year : Transaction Z :=
  mkTransaction "V1" "VEHICLE_CREATED" "m1" "MANUFACTURER" 2
    [("year", PFloat 2024); ("imported", PInt 1)] None None.

(** Three transactions of one vehicle with the timestamps 3.0, NaN and
    1.0, the second as [from_dict] builds it from a dict that holds a NaN,
    sealed in this order. *)
Definition demo_at_3 : Transaction whole_or_nan :=
  Transaction_init (Whole 3) "V1" "SERVICE_RECORD" "mech1" "MECHANIC" [].
Definition demo_at_nan : Transaction whole_or_nan :=
  mkTransaction "V1" "SERVICE_RECORD" "mech1" "MECHANIC" NaN [] None None.
Definition demo_at_1 : Transaction whole_or_nan :=
  Transaction_init (Whole 1) "V1" "SERVICE_RECORD" "mech1" "MECHANIC" [].
Definition demo_nan_ledger : Blockchain whole_or_nan :=
  (create_block (Whole 9) 1 "h0"
     (submit_all [demo_at_3; demo_at_nan; demo_at_1]
        (Blockchain_init (Whole 0))).1).1.

(** A transaction signed once, and signed again. *)
Definition demo_signed_once : Transaction Z :=
  mkTransaction "V1" "TEST" "u1" "role" 5 [] (Some "id") (Some "sig(k1,id)").
Definition demo_signed_twice : Transaction Z :=
  mkTransaction "V1" "TEST" "u1" "role" 5 [] (Some "id") (Some "sig(k2,id)").

End demo.

(** * The ledger engine *)

Section ledger_engine.
Context {F : Type} {float_F : PyDouble F} {sha256 : Sha256}.
Implicit Types (self : Blockchain F) (b : Block F) (tx : Transaction F).


(** C2, for the blocks after the genesis block.  When the [previous_hash]
    of block [i >= 1] is not the hash stored in block [i - 1],
    [is_chain_valid] returns false, whatever the hash stored in block [i]
    is. *)
Theorem link_integrity self i cur prev :
  1 ≤ i → chain self !! i = Some cur → chain self !! (i - 1) = Some prev →
  Some (previous_hash cur) ≠ hash prev →
  is_chain_valid self = false.
Proof. intros. apply (is_chain_valid_false _ i cur prev); auto. Qed.

(** C3. Index consistency.  In every reachable ledger the index holds, for
    each vehicle, its transactions in the sealed blocks in chain order;
    [rebuild_index_from_chain] leaves the index and every history as they
    were, doing it twice is doing it once, and it returns the number of
    distinct vehicles in the chain. *)
Theorem index_consistency self :
  reachable self →
  (∀ v, default [] (vin_index self !! v) = chain_history (chain self) v)
  ∧ vin_index (rebuild_index_from_chain self).1 = vin_index self
  ∧ (∀ v, get_vehicle_history (rebuild_index_from_chain self).1 v
          = get_vehicle_history self v)
  ∧ rebuild_index_from_chain (rebuild_index_from_chain self).1
    = rebuild_index_from_chain self
  ∧ (rebuild_index_from_chain self).2
    = length (remove_dups (vin <$> chain_transactions (chain self))).
Proof.
  intros Hreach. pose proof (reachable_index self Hreach) as Hidx.
  split_and!.
  - intros v. by apply reachable_index_lookup.
  - simpl. by rewrite Hidx.
  - intros v. unfold get_vehicle_history. simpl. by rewrite Hidx.
  - done.
  - simpl. apply index_chain_size.
Qed.

(** C4. Pool and seal.  From a ledger with an empty pool, after
    [add_transaction] on each of [txs] and one [create_block]: the new
    block holds exactly [txs] in submission order, the pool is empty, the
    block number is the former chain length plus one, the block is the
    last of the chain, and every call of [add_transaction] returned the
    chain length plus one (the chain does not change during the
    submissions). *)
Theorem pool_seal self txs now nonce previous_hash :
  transactions self = [] →
  let submitted := submit_all txs self in
  let sealed := create_block now nonce previous_hash submitted.1 in
  block_transactions sealed.2 = txs
  ∧ transactions sealed.1 = []
  ∧ block_number sealed.2 = length (chain self) + 1
  ∧ chain sealed.1 = chain self ++ [sealed.2]
  ∧ chain submitted.1 = chain self
  ∧ submitted.2 = replicate (length txs) (length (chain self) + 1).
Proof.
  intros Hpool. simpl. rewrite submit_all_spec. simpl. by rewrite Hpool.
Qed.

(** C5, for fields that are the same in type and content.  Two
    transactions with the same vehicle, type, actor and role, timestamps
    with the same [repr], and payloads that hold under the same keys values
    of the same type and content, whatever the insertion order of the keys,
    have the same [_compute_tx_id]; the signature and the stored [tx_id]
    play no part. *)
Theorem identity_deterministic tx1 tx2 :
  vin tx1 = vin tx2 → type tx1 = type tx2 → actor_id tx1 = actor_id tx2 →
  role tx1 = role tx2 → timestamp tx1 = timestamp tx2 →
  tx_wf tx1 → tx_wf tx2 →
  pyval_eqb (PDict (payload tx1)) (PDict (payload tx2)) = true →
  _compute_tx_id tx1 = _compute_tx_id tx2.
Proof.
  intros Hv Ht Ha Hr Hts Hwf1 Hwf2 Hp.
  unfold _compute_tx_id, dumps_sorted. rewrite !canon_tx_data.
  apply canon_eqb in Hp; [|done..].
  by rewrite Hv, Ht, Ha, Hr, Hts, Hp.
Qed.

(** C6, for timestamps that are numbers.  In a reachable ledger,
    [get_vehicle_history] returns the transactions of the vehicle in the
    chain.  When none of their timestamps is a NaN, they come in ascending
    order of timestamp, and the transactions whose timestamps compare equal
    are in the order they have in the chain. *)
Theorem history_ordering self v :
  reachable self →
  let history := get_vehicle_history self v in
  history ≡ₚ chain_history (chain self) v
  ∧ (Forall (λ tx, float_is_nan (timestamp tx) = false)
       (chain_history (chain self) v) →
     StronglySorted (λ x y, float_ltb (timestamp y) (timestamp x) = false) history
     ∧ ∀ t, float_is_nan t = false →
         filter (λ tx, key_tied float_ltb timestamp t tx = true) history
         = filter (λ tx, key_tied float_ltb timestamp t tx = true)
             (chain_history (chain self) v)).
Proof.
  intros Hreach. simpl. unfold get_vehicle_history.
  rewrite (reachable_index_lookup self v Hreach). split.
  - apply py_sorted_perm.
  - apply py_sorted_floats.
Qed.

End ledger_engine.

Section ledger_engine_clock.
Context {F : Type} {float_F : PyFloat F} {sha256 : Sha256}.
Implicit Types (self : Blockchain F) (b : Block F) (tx : Transaction F).

(** C7. State fold on the scenario: a creation of [V1] by [m1], then a
    mileage update to 500, then a transfer to [b1], each submitted and
    sealed in turn, the clock not going backwards between the three
    constructions.  The states are the whole [info] dicts. *)
Theorem state_fold_scenario (t0 t1 t2 t3 s1 s2 s3 : F)
    (role1 actor2 role2 actor3 role3 p1 p2 p3 : string) (n1 n2 n3 : Z) :
  float_ltb t2 t1 = false → float_ltb t3 t2 = false →
  let created :=
    Transaction_init t1 "V1" "VEHICLE_CREATED" "m1" role1
      [("make", PStr "Acme"); ("model", PStr "X"); ("year", PInt 2024);
       ("initial_mileage", PInt 100)] in
  let mileage :=
    Transaction_init t2 "V1" "MILEAGE_UPDATE" actor2 role2
      [("new_mileage", PInt 500)] in
  let transfer :=
    Transaction_init t3 "V1" "OWNERSHIP_TRANSFER" actor3 role3
      [("new_owner_id", PStr "b1")] in
  let ledger1 := submit_and_seal created s1 n1 p1 (Blockchain_init t0) in
  let ledger2 := submit_and_seal mileage s2 n2 p2 ledger1 in
  let ledger3 := submit_and_seal transfer s3 n3 p3 ledger2 in
  get_vehicle_info ledger1 "V1"
  = Some (mkInfo "V1" (PStr "Acme") (PStr "X") (PInt 2024) (PStr "m1")
            (PInt 100) (PStr "m1") (PFloat t1) 1)
  ∧ get_vehicle_info ledger2 "V1"
    = Some (mkInfo "V1" (PStr "Acme") (PStr "X") (PInt 2024) (PStr "m1")
              (PInt 500) (PStr "m1") (PFloat t1) 2)
  ∧ get_vehicle_info ledger3 "V1"
    = Some (mkInfo "V1" (PStr "Acme") (PStr "X") (PInt 2024) (PStr "b1")
              (PInt 500) (PStr "m1") (PFloat t1) 3).
Proof.
  intros H21 H32 created mileage transfer ledger1 ledger2 ledger3.
  assert (float_ltb t3 t1 = false) as H31
    by (by apply (float_ltb_negtrans t3 t2 t1)).
  assert (get_vehicle_history ledger1 "V1" = [created]) as E1.
  { apply history_sorted_id; [done|]. repeat constructor. }
  assert (get_vehicle_history ledger2 "V1" = [created; mileage]) as E2.
  { apply history_sorted_id; [done|]. repeat constructor; done. }
  assert (get_vehicle_history ledger3 "V1" = [created; mileage; transfer]) as E3.
  { apply history_sorted_id; [done|]. repeat constructor; done. }
  unfold get_vehicle_info. rewrite E1, E2, E3. done.
Qed.

End ledger_engine_clock.

Section ledger_queries.
Context {F : Type} {float_F : PyDouble F} {sha256 : Sha256}.
Implicit Types (self : Blockchain F) (b : Block F) (tx : Transaction F).

(** C8, as the code has it.  [Transaction.__init__] checks nothing: for
    every vehicle and event type, the empty and the unknown ones too, it
    returns the transaction with these fields and its identity, and
    [add_transaction] appends it to the pool. *)
Theorem construction_unvalidated (now : F) (v ty a r : string)
    (p : list (string * pyval F)) self :
  let tx := Transaction_init now v ty a r p in
  vin tx = v ∧ type tx = ty ∧ actor_id tx = a ∧ role tx = r
  ∧ timestamp tx = now ∧ payload tx = p
  ∧ tx_id tx = Some (_compute_tx_id tx) ∧ signature tx = None
  ∧ transactions (add_transaction tx self).1 = transactions self ++ [tx]
  ∧ (add_transaction tx self).2 = length (chain self) + 1.
Proof. done. Qed.

(** C10, for the histories where nothing sets the mileage after the update
    that lacks its key.  The history is [pre], then a [MILEAGE_UPDATE]
    without [new_mileage], then [post]; [pre] establishes the mileage [m]
    and no transaction of [post] carries a mileage (a creation with
    [initial_mileage] or a mileage update with [new_mileage]).  Then
    [get_latest_mileage] returns [m], the [latest_mileage] of
    [get_vehicle_info] is [None], and the two differ. *)
Theorem mileage_queries_disagree self v pre bad post m :
  get_vehicle_history self v = pre ++ bad :: post →
  foldl mileage_step PNone pre = m → m ≠ PNone →
  type bad = "MILEAGE_UPDATE" → dict_has "new_mileage" (payload bad) = false →
  Forall (λ tx, sets_mileage tx = false) post →
  get_latest_mileage self v = m
  ∧ latest_mileage <$> get_vehicle_info self v = Some PNone
  ∧ Some (get_latest_mileage self v)
    ≠ latest_mileage <$> get_vehicle_info self v.
Proof.
  intros Hh Hm Hne Hty Hkey Hpost.
  assert (get_latest_mileage self v = m) as E1.
  { unfold get_latest_mileage. rewrite Hh, foldl_app, Hm. simpl.
    assert (mileage_step m bad = m) as ->.
    { unfold mileage_step. by rewrite Hty, Hkey. }
    clear Hh. induction Hpost as [|tx post ? _ IH]; simpl; [done|].
    by rewrite mileage_step_skip. }
  assert (latest_mileage <$> get_vehicle_info self v = Some PNone) as E2.
  { unfold get_vehicle_info. rewrite Hh.
    destruct (pre ++ bad :: post) eqn:E; [by destruct pre|]. rewrite <- E.
    simpl. f_equal. rewrite foldl_app. simpl.
    generalize (foldl info_step
      (mkInfo v PNone PNone PNone PNone PNone PNone PNone
         (length (pre ++ bad :: post))) pre).
    intros i0.
    assert (latest_mileage (info_step i0 bad) = PNone) as Hbad.
    { unfold info_step. rewrite Hty. simpl.
      by rewrite (dict_has_false _ _ _ Hkey). }
    revert Hbad. generalize (info_step i0 bad). clear -Hpost.
    induction Hpost as [|tx post ? _ IH]; intros i Hi; simpl; [done|].
    by apply IH, info_step_keeps_none. }
  rewrite E1, E2. split_and!; [done..|]. congruence.
Qed.

End ledger_queries.

Section signing.
Context {F : Type} {signer : Signer}.

(** C9, as the code has it.  [sign_transaction] raises [ValueError] when
    the identity is missing or empty.  Otherwise it signs, whether or not
    a signature is already there, and only the signature changes; an
    exception of the key decoding is passed on. *)
Theorem sign_transaction_spec (tx : Transaction F) (key : string) :
  (tx_id tx = None ∨ tx_id tx = Some "" →
   sign_transaction tx key
   = inl (ValueError "Transaction must have tx_id before signing"))
  ∧ (∀ id sig,
     tx_id tx = Some id → id ≠ "" → pkcs1_sign_hex key id = inr sig →
     sign_transaction tx key
     = inr (mkTransaction (vin tx) (type tx) (actor_id tx) (role tx)
              (timestamp tx) (payload tx) (tx_id tx) (Some sig)))
  ∧ (∀ id e, tx_id tx = Some id → id ≠ "" → pkcs1_sign_hex key id = inl e →
     sign_transaction tx key = inl e).
Proof.
  unfold sign_transaction. split_and!.
  - by intros [-> | ->].
  - intros id sig -> Hid Hsig. destruct id; [done|]. by rewrite Hsig.
  - intros id e -> Hid He. destruct id; [done|]. by rewrite He.
Qed.

End signing.

(** * The properties at work *)

Section evaluation.
#[local] Existing Instance plain_digest.
#[local] Existing Instance plain_signer.
#[local] Open Scope Z_scope.


Lemma demo_ledger_reachable : reachable demo_ledger.
Proof. apply reachable_create, reachable_add, reachable_init. Qed.

Lemma demo_history_reachable : reachable demo_history.
Proof.
  apply reachable_create, reachable_add, reachable_create,
    reachable_submit_all, reachable_init.
Qed.

(** [test_genesis_block], [test_block_mining] and [test_chain_validity] of
    [test_unit.py]. *)
Example test_genesis_block :
  length (chain demo_genesis) = 1%nat
  ∧ previous_hash <$> chain demo_genesis !! 0%nat = Some "00".
Proof. by vm_compute. Qed.

Example test_block_mining :
  length (transactions demo_pool) = 1%nat
  ∧ length (chain demo_ledger) = 2%nat
  ∧ length (transactions demo_ledger) = 0%nat
  ∧ Some <$> (previous_hash <$> chain demo_ledger !! 1%nat)
    = hash <$> get_last_block demo_pool.
Proof. by vm_compute. Qed.

Example test_chain_validity :
  is_chain_valid demo_ledger = true ∧ is_chain_valid demo_hacked = false.
Proof. split; by vm_compute. Qed.


(** The link of block 2 is found wrong, its own hash being right. *)
Lemma link_integrity_witness :
  hash demo_relinked_block = Some (compute_hash demo_relinked_block)
  ∧ is_chain_valid demo_relinked = false.
Proof.
  split; [reflexivity|].
  apply (link_integrity demo_relinked 1 demo_relinked_block demo_genesis_block).
  - apply le_n.
  - reflexivity.
  - reflexivity.
  - intros E. vm_compute in E. discriminate E.
Defined.

(** The link of the genesis block is not looked at: the sentinel replaced,
    the chain is still valid. *)
Lemma genesis_link_unchecked :
  chain demo_ledger !! 0%nat = Some demo_genesis_block
  ∧ previous_hash demo_genesis_block = "00"
  ∧ chain demo_regenesis
    = <[0%nat := set_previous_hash demo_genesis_block "ff"]> (chain demo_ledger)
  ∧ is_chain_valid demo_regenesis = true.
Proof. by vm_compute. Qed.

Lemma index_consistency_witness :
  (∀ v, default [] (vin_index demo_history !! v)
        = chain_history (chain demo_history) v)
  ∧ vin_index (rebuild_index_from_chain demo_history).1 = vin_index demo_history
  ∧ (∀ v, get_vehicle_history (rebuild_index_from_chain demo_history).1 v
          = get_vehicle_history demo_history v)
  ∧ rebuild_index_from_chain (rebuild_index_from_chain demo_history).1
    = rebuild_index_from_chain demo_history
  ∧ (rebuild_index_from_chain demo_history).2
    = length (remove_dups (vin <$> chain_transactions (chain demo_history))).
Proof.
  apply (index_consistency demo_history).
  apply reachable_create, reachable_add, reachable_create,
    reachable_add, reachable_add, reachable_add, reachable_init.
Defined.

Example rebuild_counts_vehicles :
  (rebuild_index_from_chain demo_history).2 = 2%nat.
Proof. by vm_compute. Qed.

Lemma pool_seal_witness :
  let submitted := submit_all [demo_a; demo_d; demo_b] demo_genesis in
  let sealed := create_block 8 1 "h0" submitted.1 in
  block_transactions sealed.2 = [demo_a; demo_d; demo_b]
  ∧ transactions sealed.1 = []
  ∧ block_number sealed.2 = (length (chain demo_genesis) + 1)%nat
  ∧ chain sealed.1 = chain demo_genesis ++ [sealed.2]
  ∧ chain submitted.1 = chain demo_genesis
  ∧ submitted.2 = replicate 3 (length (chain demo_genesis) + 1)%nat.
Proof.
  apply (pool_seal demo_genesis [demo_a; demo_d; demo_b] 8 1 "h0").
  reflexivity.
Defined.


(** The year as 2024 and as 2024.0, a flag as [True] and as [1]: every
    field of the two transactions is [==], and the identities differ. *)
Lemma equal_fields_distinct_identity :
  vin demo_int_year = vin demo_float_year
  ∧ type demo_int_year = type demo_float_year
  ∧ actor_id demo_int_year = actor_id demo_float_year
  ∧ role demo_int_year = role demo_float_year
  ∧ timestamp demo_int_year = timestamp demo_float_year
  ∧ py_eq (PDict (payload demo_int_year)) (PDict (payload demo_float_year)) = true
  ∧ _compute_tx_id demo_int_year ≠ _compute_tx_id demo_float_year.
Proof. split_and!; try reflexivity. intros E. vm_compute in E. discriminate E. Qed.

Lemma identity_deterministic_witness :
  _compute_tx_id demo_make_year = _compute_tx_id demo_year_make.
Proof.
  apply (identity_deterministic demo_make_year demo_year_make);
    try reflexivity.
  - split; [|simpl; tauto]. apply (bool_decide_unpack _). reflexivity.
  - split; [|simpl; tauto]. apply (bool_decide_unpack _). reflexivity.
Defined.

Lemma history_ordering_witness :
  let history := get_vehicle_history demo_history "V1" in
  history ≡ₚ chain_history (chain demo_history) "V1"
  ∧ StronglySorted (λ x y, float_ltb (timestamp y) (timestamp x) = false) history
  ∧ ∀ t, filter (λ tx, key_tied float_ltb timestamp t tx = true) history
         = filter (λ tx, key_tied float_ltb timestamp t tx = true)
             (chain_history (chain demo_history) "V1").
Proof.
  destruct (history_ordering demo_history "V1") as [Hperm Hsorted].
  - apply reachable_create, reachable_add, reachable_create,
      reachable_add, reachable_add, reachable_add, reachable_init.
  - destruct Hsorted as [Hsorted Htied]; [by repeat constructor|].
    split; [exact Hperm|]. split; [exact Hsorted|].
    intros t. by apply Htied.
Defined.

(** Timestamps 3.0, NaN and 1.0 in chain order: no timestamp is smaller
    than the one before it, the history is returned in chain order, and
    1.0 comes after 3.0. *)
Lemma nan_history_unsorted :
  reachable demo_nan_ledger
  ∧ chain_history (chain demo_nan_ledger) "V1" = [demo_at_3; demo_at_nan; demo_at_1]
  ∧ float_ltb (timestamp demo_at_nan) (timestamp demo_at_3) = false
  ∧ float_ltb (timestamp demo_at_1) (timestamp demo_at_nan) = false
  ∧ get_vehicle_history demo_nan_ledger "V1" = [demo_at_3; demo_at_nan; demo_at_1]
  ∧ float_ltb (timestamp demo_at_1) (timestamp demo_at_3) = true.
Proof.
  split; [|by vm_compute].
  apply reachable_create, reachable_submit_all, reachable_init.
Qed.

(** Timestamps 5, 3 and 5 in chain order: 3 comes first, the two 5 keep
    their order. *)
Example history_is_stable :
  chain_history (chain demo_history) "V1" = [demo_a; demo_b; demo_c]
  ∧ get_vehicle_history demo_history "V1" = [demo_b; demo_a; demo_c].
Proof. by vm_compute. Qed.

Lemma state_fold_scenario_witness :
  let created :=
    Transaction_init 2 "V1" "VEHICLE_CREATED" "m1" "MANUFACTURER"
      [("make", PStr "Acme"); ("model", PStr "X"); ("year", PInt 2024);
       ("initial_mileage", PInt 100)] in
  let mileage :=
    Transaction_init 4 "V1" "MILEAGE_UPDATE" "mech1" "MECHANIC"
      [("new_mileage", PInt 500)] in
  let transfer :=
    Transaction_init 6 "V1" "OWNERSHIP_TRANSFER" "m1" "MANUFACTURER"
      [("new_owner_id", PStr "b1")] in
  let ledger1 := submit_and_seal created 3 1 "h0" (Blockchain_init 1) in
  let ledger2 := submit_and_seal mileage 5 2 "h1" ledger1 in
  let ledger3 := submit_and_seal transfer 7 3 "h2" ledger2 in
  get_vehicle_info ledger1 "V1"
  = Some (mkInfo "V1" (PStr "Acme") (PStr "X") (PInt 2024) (PStr "m1")
            (PInt 100) (PStr "m1") (PFloat 2) 1)
  ∧ get_vehicle_info ledger2 "V1"
    = Some (mkInfo "V1" (PStr "Acme") (PStr "X") (PInt 2024) (PStr "m1")
              (PInt 500) (PStr "m1") (PFloat 2) 2)
  ∧ get_vehicle_info ledger3 "V1"
    = Some (mkInfo "V1" (PStr "Acme") (PStr "X") (PInt 2024) (PStr "b1")
              (PInt 500) (PStr "m1") (PFloat 2) 3).
Proof.
  apply (state_fold_scenario (float_F:=whole_float)
           1 2 4 6 3 5 7 "MANUFACTURER" "mech1" "MECHANIC"
           "m1" "MANUFACTURER" "h0" "h1" "h2" 1 2 3); reflexivity.
Defined.

(** A transaction with an empty vehicle and an event type of no list is
    constructed and enters the pool of a reachable ledger. *)
Lemma unvalidated_transaction_enters_pool :
  let self := (add_transaction demo_blank demo_genesis).1 in
  reachable self
  ∧ demo_blank ∈ transactions self
  ∧ vin demo_blank = ""
  ∧ type demo_blank ∉ event_types.
Proof.
  split_and!.
  - apply reachable_add, reachable_init.
  - by apply list_elem_of_singleton.
  - reflexivity.
  - apply (bool_decide_unpack _). by vm_compute.
Qed.

(** A signed transaction is signed again: no error, the first signature
    is overwritten. *)
Lemma signing_twice_succeeds :
  signature demo_signed_once = Some "sig(k1,id)"
  ∧ sign_transaction demo_signed_once "k2" = inr demo_signed_twice
  ∧ signature demo_signed_twice = Some "sig(k2,id)".
Proof. by vm_compute. Qed.

Lemma mileage_queries_disagree_witness :
  get_latest_mileage demo_keyless_last "V1" = PInt 100
  ∧ latest_mileage <$> get_vehicle_info demo_keyless_last "V1" = Some PNone
  ∧ Some (get_latest_mileage demo_keyless_last "V1")
    ≠ latest_mileage <$> get_vehicle_info demo_keyless_last "V1".
Proof.
  apply (mileage_queries_disagree demo_keyless_last "V1" [demo_created]
           demo_keyless [demo_service] (PInt 100)).
  - reflexivity.
  - reflexivity.
  - discriminate.
  - reflexivity.
  - reflexivity.
  - repeat constructor.
Defined.

(** A mileage is established, an update without its key follows, and a
    later update sets the mileage again: both queries return 500. *)
Lemma later_update_realigns_queries :
  reachable demo_keyless_then_update
  ∧ get_vehicle_history demo_keyless_then_update "V1"
    = [demo_created; demo_keyless; demo_update]
  ∧ foldl mileage_step PNone [demo_created] = PInt 100
  ∧ type demo_keyless = "MILEAGE_UPDATE"
  ∧ dict_has "new_mileage" (payload demo_keyless) = false
  ∧ get_latest_mileage demo_keyless_then_update "V1" = PInt 500
  ∧ latest_mileage <$> get_vehicle_info demo_keyless_then_update "V1"
    = Some (PInt 500).
Proof.
  split; [|by vm_compute].
  apply reachable_create, reachable_submit_all, reachable_init.
Qed.

End evaluation.

(** * The rest of the three modules *)

(** ** [Transaction.from_dict], [Block.to_dict], [get_chain_data] *)

Section serialisation.
Context {F : Type} {float_F : PyDouble F} {sha256 : Sha256}.

(** What [from_dict] comes to: a transaction, the [KeyError] of
    [tx_dict[key]], or a dict whose values are not of the types the fields
    of [Transaction] have here (a string for the vehicle, the type, the
    actor and the role, a float for the timestamp, a dict for the payload,
    a string or [None] for the identity and the signature). *)
Inductive from_dict_result : Type :=
| FromDict (tx : Transaction F)
| KeyError (key : string)
| Untyped.

Definition as_str (v : pyval F) : option string :=
  match v with PStr s => Some s | _ => None end.

Definition as_float (v : pyval F) : option F :=
  match v with PFloat x => Some x | _ => None end.

Definition as_dict (v : pyval F) : option (list (string * pyval F)) :=
  match v with PDict d => Some d | _ => None end.

(** The value of [tx_dict.get(key)] as an optional string. *)
Definition as_opt_str (o : option (pyval F)) : option (option string) :=
  match o with
  | None | Some PNone => Some None
  | Some (PStr s) => Some (Some s)
  | Some _ => None
  end.

(** [Transaction.from_dict]: the five arguments of the constructor are
    read in order, then the timestamp, each with [tx_dict[key]]; the
    constructor reads the clock and computes an identity, and both are
    overwritten with what the dict holds.  On typed values the constructor
    does not fail, so that the six keys are looked up first. *)
Definition from_dict (now : F) (tx_dict : list (string * pyval F)) : from_dict_result :=
  match dict_lookup "vin" tx_dict with
  | None => KeyError "vin"
  | Some v =>
  match dict_lookup "type" tx_dict with
  | None => KeyError "type"
  | Some ty =>
  match dict_lookup "actor_id" tx_dict with
  | None => KeyError "actor_id"
  | Some a =>
  match dict_lookup "role" tx_dict with
  | None => KeyError "role"
  | Some r =>
  match dict_lookup "payload" tx_dict with
  | None => KeyError "payload"
  | Some p =>
  match dict_lookup "timestamp" tx_dict with
  | None => KeyError "timestamp"
  | Some ts =>
  match as_str v, as_str ty, as_str a, as_str r, as_dict p, as_float ts,
        as_opt_str (dict_lookup "tx_id" tx_dict),
        as_opt_str (dict_lookup "signature" tx_dict) with
  | Some v, Some ty, Some a, Some r, Some p, Some ts, Some id, Some sig =>
      let tx := Transaction_init now v ty a r p in
      FromDict (mkTransaction (vin tx) (type tx) (actor_id tx) (role tx)
                  ts (payload tx) id sig)
  | _, _, _, _, _, _, _, _ => Untyped
  end end end end end end end.

(** The keys of the dict [to_dict] returns. *)
Definition exported_keys : list string :=
  ["tx_id"; "vin"; "type"; "actor_id"; "role"; "timestamp"; "payload";
   "signature"].

(** The keys [from_dict] reads with [tx_dict[key]], in the order it reads
    them. *)
Definition required_keys : list string :=
  ["vin"; "type"; "actor_id"; "role"; "payload"; "timestamp"].

(** The items of the dict returned by [Transaction.to_dict]. *)
Definition to_dict_items (tx : Transaction F) : list (string * pyval F) :=
  match to_dict tx with
  | PDict d => d
  | _ => []
  end.

(** [Block.to_dict] *)
Definition Block_to_dict (b : Block F) : pyval F :=
  PDict [("block_number", PInt (Z.of_nat (block_number b)));
         ("timestamp", PFloat (block_timestamp b));
         ("transactions", PList (map to_dict (block_transactions b)));
         ("nonce", PInt (nonce b));
         ("previous_hash", PStr (previous_hash b));
         ("hash", opt_str (hash b))].

Definition get_chain_data (self : Blockchain F) : list (pyval F) :=
  map Block_to_dict (chain self).

(** The ledgers whose blocks were all created with the hash of the last
    block as [previous_hash], as the callers of [create_block] do. *)
Inductive linked : Blockchain F → Prop :=
| linked_init now : linked (Blockchain_init now)
| linked_add tx self : linked self → linked (add_transaction tx self).1
| linked_create now nonce last h self :
    linked self → get_last_block self = Some last → hash last = Some h →
    linked (create_block now nonce h self).1
| linked_rebuild self : linked self → linked (rebuild_index_from_chain self).1.

(** The value a transaction gives to the mileage in [get_latest_mileage]. *)
Definition mileage_of (tx : Transaction F) : pyval F :=
  if bool_decide (type tx = "VEHICLE_CREATED")
  then dict_get (payload tx) "initial_mileage" PNone
  else dict_get (payload tx) "new_mileage" PNone.

(** The transactions that assign the owner in [get_vehicle_info], and the
    owner they assign. *)
Definition sets_owner (tx : Transaction F) : bool :=
  bool_decide (type tx = "VEHICLE_CREATED")
  || bool_decide (type tx = "OWNERSHIP_TRANSFER").

Definition owner_of (tx : Transaction F) : pyval F :=
  if bool_decide (type tx = "VEHICLE_CREATED")
  then dict_get (payload tx) "owner_id" (PStr (actor_id tx))
  else dict_get (payload tx) "new_owner_id" PNone.

(** Every creation and every mileage update carries its mileage. *)
Definition mileage_keyed (tx : Transaction F) : Prop :=
  (type tx = "VEHICLE_CREATED" → dict_has "initial_mileage" (payload tx) = true)
  ∧ (type tx = "MILEAGE_UPDATE" → dict_has "new_mileage" (payload tx) = true).

(** The fields [get_vehicle_info] takes from the creation of a vehicle. *)
Definition description (info : vehicle_info F)
    : pyval F * pyval F * pyval F * pyval F * pyval F :=
  (make info, model info, year info, created_by info, created_at info).

End serialisation.

Global Arguments from_dict_result : clear implicits.

(** ** [verify_transaction_signature] *)

(** The PKCS#1 v1.5 verification, from the public key (hex of DER), the
    message and the signature (hex): the answer of [verifier.verify], or
    nothing when decoding the key or the signature raises [ValueError] or
    [TypeError]. *)
Class Verifier := pkcs1_verify_hex : string → string → string → option bool.

(** [not s] for an attribute that is a string or [None]. *)
Definition falsy (o : option string) : bool :=
  match o with
  | None | Some EmptyString => true
  | Some _ => false
  end.

Section verification.
Context {F : Type} {verifier : Verifier}.

Definition verify_transaction_signature (transaction : Transaction F)
    (public_key_hex : string) : bool :=
  if falsy (signature transaction) || falsy (tx_id transaction) then false
  else
    match signature transaction, tx_id transaction with
    | Some sig, Some id =>
        match pkcs1_verify_hex public_key_hex id sig with
        | Some answer => answer
        | None => false
        end
    | _, _ => false
    end.

End verification.

(** A private and a public key that belong together: what is signed with
    the first verifies with the second, and a signature is not empty. *)
Definition key_pair {signer : Signer} {verifier : Verifier}
    (private_key_hex public_key_hex : string) : Prop :=
  ∀ msg sig, pkcs1_sign_hex private_key_hex msg = inr sig →
    sig ≠ "" ∧ pkcs1_verify_hex public_key_hex msg sig = Some true.

(** ** [users.py] *)

Record User := mkUser {
  user_id : string;
  user_role : string;
  private_key : string;
  public_key : string
}.

(** [ROLES] *)
Definition ROLES : list (string * list string) :=
  [("MANUFACTURER", ["VEHICLE_CREATED"; "OWNERSHIP_TRANSFER"]);
   ("DMV", ["VEHICLE_CREATED"; "OWNERSHIP_TRANSFER"]);
   ("MECHANIC", ["MILEAGE_UPDATE"; "SERVICE_RECORD"]);
   ("INSURER", ["ACCIDENT_RECORD"]);
   ("BUYER", [])].

(** [ROLES.get(role, [])] *)
Fixpoint roles_get (role : string) (table : list (string * list string)) : list string :=
  match table with
  | [] => []
  | (r, allowed) :: table' =>
      if String.eqb role r then allowed else roles_get role table'
  end.

(** What [create_and_sign_transaction] raises: an exception of the
    signing, [ValueError] for an unknown user, or [PermissionError]. *)
Inductive raised : Type :=
| Raised (e : exn)
| PermissionError (msg : string).

Section users.
Context {F : Type} {float_F : PyDouble F} {sha256 : Sha256}
  {signer : Signer} {verifier : Verifier}.

(** The registry [USERS] is a parameter of the functions that read it. *)
Definition get_user (USERS : gmap string User) (uid : string) : option User :=
  USERS !! uid.

Definition can_user_create_transaction (USERS : gmap string User)
    (uid transaction_type : string) : bool :=
  match get_user USERS uid with
  | None => false
  | Some user =>
      bool_decide (transaction_type ∈ roles_get (user_role user) ROLES)
  end.

Definition create_and_sign_transaction (USERS : gmap string User) (now : F)
    (uid vin tx_type : string) (payload : list (string * pyval F))
    : raised + Transaction F :=
  match get_user USERS uid with
  | None => inl (Raised (ValueError ("User " +:+ uid +:+ " not found")))
  | Some user =>
      if negb (can_user_create_transaction USERS uid tx_type) then
        inl (PermissionError
               ("User " +:+ uid +:+ " with role " +:+ user_role user
                +:+ " cannot create " +:+ tx_type +:+ " transactions"))
      else
        let transaction :=
          Transaction_init now vin tx_type uid (user_role user) payload in
        match sign_transaction transaction (private_key user) with
        | inl e => inl (Raised e)
        | inr signed => inr signed
        end
  end.

Definition verify_transaction (USERS : gmap string User)
    (transaction : Transaction F) : bool :=
  match get_user USERS (actor_id transaction) with
  | None => false
  | Some user =>
      if negb (verify_transaction_signature transaction (public_key user))
      then false
      else if negb (can_user_create_transaction USERS (actor_id transaction)
                      (type transaction))
      then false
      else true
  end.

End users.

(** * Scenarios for the rest of the modules *)

(** A verifier for [plain_signer]: a key is its own public key, and a
    signature verifies when it is the text the signer produces. *)
Definition plain_verifier : Verifier :=
  λ key msg sig, Some (bool_decide (sig = "sig(" +:+ key +:+ "," +:+ msg +:+ ")")).

Section scenarios.
#[local] Existing Instance plain_digest.
#[local] Existing Instance plain_signer.
#[local] Existing Instance plain_verifier.
#[local] Open Scope Z_scope.

(** A registry with one user of three of the roles. *)
Definition demo_users : gmap string User :=
  {[ "manufacturer_1" := mkUser "manufacturer_1" "MANUFACTURER" "k1" "k1";
     "mechanic_1" := mkUser "mechanic_1" "MECHANIC" "k2" "k2";
     "buyer_1" := mkUser "buyer_1" "BUYER" "k3" "k3" ]}.

(** A dict as [from_dict] reads it, without identity and signature. *)
Definition demo_dict : list (string * pyval Z) :=
  [("payload", PDict []); ("timestamp", PFloat 5); ("role", PStr "MECHANIC");
   ("actor_id", PStr "mechanic_1"); ("type", PStr "SERVICE_RECORD");
   ("vin", PStr "V1")].
Definition demo_unsigned : Transaction Z :=
  mkTransaction "V1" "SERVICE_RECORD" "mechanic_1" "MECHANIC" 5 [] None None.

(** The life of a vehicle: created, driven, serviced, sold, driven. *)
Definition demo_transfer : Transaction Z :=
  Transaction_init 6 "V1" "OWNERSHIP_TRANSFER" "m1" "MANUFACTURER"
    [("new_owner_id", PStr "b1")].
Definition demo_late_update : Transaction Z :=
  Transaction_init 8 "V1" "MILEAGE_UPDATE" "mech1" "MECHANIC"
    [("new_mileage", PInt 900)].
Definition demo_lifecycle : Blockchain Z :=
  (create_block 9 1 "h0"
     (submit_all [demo_created; demo_update; demo_service; demo_transfer;
                  demo_late_update] (Blockchain_init 1)).1).1.
Definition demo_lifecycle_info : vehicle_info Z :=
  mkInfo "V1" (PStr "Acme") (PStr "X") (PInt 2024) (PStr "b1") (PInt 900)
    (PStr "m1") (PFloat 2) 5.

(** The vehicle is created a second time, by somebody else. *)
Definition demo_recreated : Transaction Z :=
  Transaction_init 7 "V1" "VEHICLE_CREATED" "dmv_1" "DMV" [("make", PStr "Other")].
Definition demo_recreation : Blockchain Z :=
  submit_and_seal demo_recreated 10 2 "h1" demo_lifecycle.
Definition demo_recreation_info : vehicle_info Z :=
  mkInfo "V1" (PStr "Other") PNone PNone (PStr "dmv_1") (PInt 900)
    (PStr "dmv_1") (PFloat 7) 6.

(** The state of a vehicle that was never created. *)
Definition demo_history_info : vehicle_info Z :=
  mkInfo "V1" PNone PNone PNone PNone PNone PNone PNone 3.

(** What [create_and_sign_transaction] returns for the mechanic. *)
Definition demo_signed : Transaction Z :=
  mkTransaction "V1" "SERVICE_RECORD" "mechanic_1" "MECHANIC" 5 []
    (Some (_compute_tx_id demo_unsigned))
    (Some ("sig(k2," +:+ _compute_tx_id demo_unsigned +:+ ")")).

End scenarios.

(** * Properties of the rest of the modules *)

Section serialisation_facts.
Context {F : Type} {float_F : PyDouble F} {sha256 : Sha256}.
Implicit Types (self : Blockchain F) (b : Block F) (tx : Transaction F).

(** X1. Round trip: [from_dict] gives back the transaction whose [to_dict]
    it reads, identity and signature included, whatever the clock shows. *)
Theorem from_dict_to_dict now tx : from_dict now (to_dict_items tx) = FromDict tx.
Proof. destruct tx as [? ? ? ? ? ? [?|] [?|]]; reflexivity. Qed.

Lemma as_str_Some (v : pyval F) s : as_str v = Some s → v = PStr s.
Proof. destruct v; simpl; congruence. Qed.

Lemma as_float_Some (v : pyval F) x : as_float v = Some x → v = PFloat x.
Proof. destruct v; simpl; congruence. Qed.

Lemma as_dict_Some (v : pyval F) d : as_dict v = Some d → v = PDict d.
Proof. destruct v; simpl; congruence. Qed.

Lemma as_opt_str_Some (o : option (pyval F)) r :
  as_opt_str o = Some r → default PNone o = opt_str r.
Proof. destruct o as [[]|]; simpl; intros; by simplify_eq. Qed.

(** X2. [from_dict] raises [KeyError] exactly when one of the six keys it
    reads with [tx_dict[key]] is missing, and the key of the error is the
    first missing one in the order the keys are read; when it returns a
    transaction the six keys are present. *)
Theorem from_dict_key_error now (d : list (string * pyval F)) :
  (∀ k, from_dict now d = KeyError k
        ↔ find (λ k, bool_decide (dict_lookup k d = None)) required_keys = Some k)
  ∧ (∀ tx, from_dict now d = FromDict tx →
           Forall (λ k, is_Some (dict_lookup k d)) required_keys).
Proof.
  unfold from_dict, required_keys. simpl.
  destruct (dict_lookup "vin" d) eqn:E1; simpl;
    [|split; [intros k; split; congruence|done]].
  destruct (dict_lookup "type" d) eqn:E2; simpl;
    [|split; [intros k; split; congruence|done]].
  destruct (dict_lookup "actor_id" d) eqn:E3; simpl;
    [|split; [intros k; split; congruence|done]].
  destruct (dict_lookup "role" d) eqn:E4; simpl;
    [|split; [intros k; split; congruence|done]].
  destruct (dict_lookup "payload" d) eqn:E5; simpl;
    [|split; [intros k; split; congruence|done]].
  destruct (dict_lookup "timestamp" d) eqn:E6; simpl;
    [|split; [intros k; split; congruence|done]].
  split.
  - intros k. repeat case_match; split; congruence.
  - intros tx _. repeat constructor; eauto.
Qed.

(** X3. What [from_dict] returns does not depend on the clock, and its
    [to_dict] holds, under the eight exported keys, what the dict held,
    with [None] for an identity or a signature that was absent: the
    identity is the one supplied, never a recomputed one. *)
Theorem to_dict_from_dict now (d : list (string * pyval F)) tx :
  from_dict now d = FromDict tx →
  (∀ now', from_dict now' d = FromDict tx)
  ∧ ∀ k, dict_lookup k (to_dict_items tx)
         = if bool_decide (k ∈ exported_keys)
           then Some (default PNone (dict_lookup k d)) else None.
Proof.
  unfold from_dict.
  destruct (dict_lookup "vin" d) as [v|] eqn:E1; [|done].
  destruct (dict_lookup "type" d) as [ty|] eqn:E2; [|done].
  destruct (dict_lookup "actor_id" d) as [a|] eqn:E3; [|done].
  destruct (dict_lookup "role" d) as [r|] eqn:E4; [|done].
  destruct (dict_lookup "payload" d) as [p|] eqn:E5; [|done].
  destruct (dict_lookup "timestamp" d) as [ts|] eqn:E6; [|done].
  destruct (as_str v) as [v'|] eqn:T1; [apply as_str_Some in T1 as ->|done].
  destruct (as_str ty) as [ty'|] eqn:T2; [apply as_str_Some in T2 as ->|done].
  destruct (as_str a) as [a'|] eqn:T3; [apply as_str_Some in T3 as ->|done].
  destruct (as_str r) as [r'|] eqn:T4; [apply as_str_Some in T4 as ->|done].
  destruct (as_dict p) as [p'|] eqn:T5; [apply as_dict_Some in T5 as ->|done].
  destruct (as_float ts) as [ts'|] eqn:T6; [apply as_float_Some in T6 as ->|done].
  destruct (as_opt_str (dict_lookup "tx_id" d)) as [id|] eqn:T7; [|done].
  destruct (as_opt_str (dict_lookup "signature" d)) as [sig|] eqn:T8; [|done].
  apply as_opt_str_Some in T7, T8. intros [= <-]. split; [reflexivity|].
  intros k. unfold to_dict_items, to_dict, exported_keys. simpl.
  destruct (String.eqb_spec k "tx_id") as [->|?];
    [rewrite bool_decide_eq_true_2 by set_solver; by rewrite T7|].
  destruct (String.eqb_spec k "vin") as [->|?];
    [rewrite bool_decide_eq_true_2 by set_solver; by rewrite E1|].
  destruct (String.eqb_spec k "type") as [->|?];
    [rewrite bool_decide_eq_true_2 by set_solver; by rewrite E2|].
  destruct (String.eqb_spec k "actor_id") as [->|?];
    [rewrite bool_decide_eq_true_2 by set_solver; by rewrite E3|].
  destruct (String.eqb_spec k "role") as [->|?];
    [rewrite bool_decide_eq_true_2 by set_solver; by rewrite E4|].
  destruct (String.eqb_spec k "timestamp") as [->|?];
    [rewrite bool_decide_eq_true_2 by set_solver; by rewrite E6|].
  destruct (String.eqb_spec k "payload") as [->|?];
    [rewrite bool_decide_eq_true_2 by set_solver; by rewrite E5|].
  destruct (String.eqb_spec k "signature") as [->|?];
    [rewrite bool_decide_eq_true_2 by set_solver; by rewrite T8|].
  rewrite bool_decide_eq_false_2; [done|]. set_solver.
Qed.

End serialisation_facts.

Section chain_facts.
Context {F : Type} {float_F : PyDouble F} {sha256 : Sha256}.
Implicit Types (self : Blockchain F) (b : Block F) (tx : Transaction F).

Lemma chain_valid_loop_true (chain : list (Block F)) idxs :
  chain_valid_loop chain idxs = true
  ↔ Forall (λ i, ∃ cur prev,
              chain !! i = Some cur ∧ chain !! (i - 1) = Some prev
              ∧ hash cur = Some (compute_hash cur)
              ∧ Some (previous_hash cur) = hash prev) idxs.
Proof.
  induction idxs as [|i idxs IH]; simpl.
  - split; [constructor|done].
  - rewrite Forall_cons, <- IH.
    destruct (chain !! i) as [cur|]; [|split; [done|by intros [(?&?&?&_) _]]].
    destruct (chain !! (i - 1)) as [prev|];
      [|split; [done|by intros [(?&?&_&?&_) _]]].
    destruct (decide (hash cur = Some (compute_hash cur))) as [H1|H1];
      [rewrite (bool_decide_eq_false_2 (hash cur ≠ _)) by tauto
      |rewrite (bool_decide_eq_true_2 (hash cur ≠ _)) by done;
       split; [done|by intros [(?&?&?&?&?&?) _]; simplify_eq]].
    destruct (decide (Some (previous_hash cur) = hash prev)) as [H2|H2];
      [rewrite (bool_decide_eq_false_2 (_ ≠ hash prev)) by tauto
      |rewrite (bool_decide_eq_true_2 (_ ≠ hash prev)) by done;
       split; [done|by intros [(?&?&?&?&?&?) _]; simplify_eq]].
    split; [|by intros [_ ?]].
    intros ?. split; [|done]. by exists cur, prev.
Qed.

Lemma is_chain_valid_iff self :
  is_chain_valid self = true
  ↔ ∀ i cur prev,
      1 ≤ i → chain self !! i = Some cur → chain self !! (i - 1) = Some prev →
      hash cur = Some (compute_hash cur) ∧ Some (previous_hash cur) = hash prev.
Proof.
  unfold is_chain_valid. rewrite chain_valid_loop_true, Forall_forall. split.
  - intros Hall i cur prev Hi Hcur Hprev.
    destruct (Hall i) as (cur' & prev' & ? & ? & ? & ?); [|by simplify_eq].
    apply lookup_lt_Some in Hcur. apply elem_of_seq. lia.
  - intros Hall i [Hi Hlen]%elem_of_seq.
    destruct (lookup_lt_is_Some_2 (chain self) i) as [cur Hcur]; [lia|].
    destruct (lookup_lt_is_Some_2 (chain self) (i - 1)) as [prev Hprev]; [lia|].
    exists cur, prev. split_and!; try done; by eapply Hall.
Qed.

Lemma compute_hash_set_hash b h : compute_hash (set_hash b h) = compute_hash b.
Proof. reflexivity. Qed.

Lemma create_block_valid_iff self now n p last :
  get_last_block self = Some last →
  is_chain_valid (create_block now n p self).1 = true
  ↔ is_chain_valid self = true ∧ hash last = Some p.
Proof.
  unfold get_last_block. rewrite last_lookup. intros Hlast.
  pose proof (lookup_lt_Some _ _ _ Hlast) as Hlen.
  rewrite !is_chain_valid_iff. simpl.
  set (b := set_hash (Block_init now (length (chain self) + 1)
                        (transactions self) p n) _).
  split.
  - intros Hall. split.
    + intros i cur prev Hi Hcur Hprev. apply (Hall i cur prev Hi).
      * rewrite lookup_app_l; [done|]. by eapply lookup_lt_Some.
      * rewrite lookup_app_l; [done|]. by eapply lookup_lt_Some.
    + destruct (Hall (length (chain self)) b last) as [_ Hlink]; [lia|..].
      * by rewrite lookup_app_r, Nat.sub_diag by lia.
      * rewrite lookup_app_l by lia.
        by replace (length (chain self) - 1) with (pred (length (chain self))) by lia.
      * simpl in Hlink. congruence.
  - intros [Hall Hlink] i cur prev Hi Hcur Hprev.
    destruct (decide (i < length (chain self))) as [Hlt|Hge].
    + rewrite lookup_app_l in Hcur, Hprev by lia. by eapply Hall.
    + assert (i = length (chain self)) as ->.
      { apply lookup_lt_Some in Hcur. rewrite length_app in Hcur. simpl in Hcur. lia. }
      rewrite lookup_app_r, Nat.sub_diag in Hcur by lia.
      rewrite lookup_app_l in Hprev by lia.
      replace (length (chain self) - 1) with (pred (length (chain self))) in Hprev by lia.
      simpl in Hcur. simplify_eq. simpl. split; [done|congruence].
Qed.

(** X4. [is_chain_valid] returns true exactly when every block after the
    first carries the hash of its own content and the hash stored in the
    block before it. *)
Theorem is_chain_valid_spec self :
  is_chain_valid self = true
  ↔ ∀ i cur prev,
      1 ≤ i → chain self !! i = Some cur → chain self !! (i - 1) = Some prev →
      hash cur = Some (compute_hash cur) ∧ Some (previous_hash cur) = hash prev.
Proof. apply is_chain_valid_iff. Qed.

(** X5. [create_block] does not look at the [previous_hash] it is given:
    on a ledger with a last block, the chain is valid afterwards exactly
    when it was valid before and the argument is the hash stored in the
    last block. *)
Theorem create_block_valid self now n p last :
  get_last_block self = Some last →
  is_chain_valid (create_block now n p self).1
  = is_chain_valid self && bool_decide (hash last = Some p).
Proof.
  intros Hlast. apply Bool.eq_true_iff_eq.
  rewrite (create_block_valid_iff self now n p last Hlast).
  by rewrite andb_true_iff, bool_decide_eq_true.
Qed.

(** X6. A ledger whose blocks were all created with the hash of the last
    block is valid, at construction and after every operation. *)
Theorem linked_valid self : linked self → is_chain_valid self = true.
Proof.
  induction 1 as [now|tx self _ IH|now n last h self _ IH Hlast Hh|self _ IH].
  - reflexivity.
  - exact IH.
  - by apply (create_block_valid_iff self now n h last Hlast).
  - exact IH.
Qed.

Lemma linked_reachable self : linked self → reachable self.
Proof. induction 1; by constructor. Qed.

Lemma reachable_block_number self i b :
  reachable self → chain self !! i = Some b → block_number b = i + 1.
Proof.
  intros Hreach. revert i b.
  induction Hreach as [now|tx self _ IH|now n p self _ IH|self _ IH];
    intros i b; simpl; auto.
  - destruct i; [|done]. by intros [= <-].
  - intros [Hb|[Hi Hb]]%lookup_app_Some; [by apply IH|].
    destruct (i - length (chain self)) eqn:E; [|done].
    injection Hb as <-. simpl. lia.
Qed.

Lemma reachable_genesis_block self :
  reachable self →
  ∃ g, chain self !! 0 = Some g ∧ previous_hash g = "00" ∧ nonce g = 0%Z
       ∧ block_transactions g = [].
Proof.
  induction 1 as [now|tx self _ IH|now n p self _ IH|self _ IH]; simpl; auto.
  - eauto.
  - destruct IH as (g & Hg & ?). exists g. split; [|done].
    by rewrite lookup_app_l by (by eapply lookup_lt_Some).
Qed.

(** X7. In every reachable ledger the chain starts with a genesis block
    (previous hash [00], nonce 0, no transaction), has a last block, and
    its block at index [i] has number [i + 1] and stores the hash of its
    content. *)
Theorem reachable_chain_shape self :
  reachable self →
  (∃ g, chain self !! 0 = Some g ∧ previous_hash g = "00" ∧ nonce g = 0%Z
        ∧ block_transactions g = [])
  ∧ is_Some (get_last_block self)
  ∧ ∀ i b, chain self !! i = Some b →
           block_number b = i + 1 ∧ hash b = Some (compute_hash b).
Proof.
  intros Hreach. split_and!.
  - by apply reachable_genesis_block.
  - destruct (reachable_genesis_block self Hreach) as (g & Hg & _).
    unfold get_last_block. rewrite last_lookup.
    apply lookup_lt_is_Some_2. apply lookup_lt_Some in Hg. lia.
  - intros i b Hb. split; [by eapply reachable_block_number|].
    apply (reachable_sealed self); [done|]. by eapply list_elem_of_lookup_2.
Qed.

(** X8. The export of a reachable chain can be checked by its reader:
    entry [i] of [get_chain_data] is a dict whose block number is [i + 1]
    and whose [hash] is the digest of the sorted serialisation of its other
    items. *)
Theorem get_chain_data_verifiable self i e :
  reachable self → get_chain_data self !! i = Some e →
  ∃ d, e = PDict d
       ∧ dict_lookup "block_number" d = Some (PInt (Z.of_nat (i + 1)))
       ∧ dict_lookup "hash" d
         = Some (PStr (sha256_hexdigest
                         (dumps_sorted (PDict (filter (λ kv, kv.1 ≠ "hash") d))))).
Proof.
  intros Hreach. unfold get_chain_data.
  change (map Block_to_dict (chain self)) with (Block_to_dict <$> chain self).
  rewrite list_lookup_fmap. destruct (chain self !! i) as [b|] eqn:Hb; [|done].
  intros [= <-]. eexists. split; [reflexivity|]. split.
  - simpl. by rewrite (reachable_block_number self i b Hreach Hb).
  - simpl dict_lookup.
    rewrite (reachable_sealed self b Hreach) by (by eapply list_elem_of_lookup_2).
    reflexivity.
Qed.

End chain_facts.

Section query_facts.
Context {F : Type} {float_F : PyDouble F} {sha256 : Sha256}.
Implicit Types (self : Blockchain F) (b : Block F) (tx : Transaction F).
Implicit Types (info : vehicle_info F).

(** What a fold leaves of an observation [g] of its state, when the steps
    after [tx] keep it. *)
Lemma foldl_keeps {A B C} (f : A → B → A) (g : A → C) (keep : B → Prop)
    (l : list B) (a : A) :
  (∀ a x, keep x → g (f a x) = g a) → Forall keep l → g (foldl f a l) = g a.
Proof.
  intros Hkeep Hl. revert a. induction Hl as [|x l Hx _ IH]; intros a; [done|].
  simpl. by rewrite IH, Hkeep.
Qed.

Lemma history_nil self v :
  get_vehicle_history self v = [] ↔ default [] (vin_index self !! v) = [].
Proof.
  unfold get_vehicle_history. split; [apply py_sorted_nil_inv|by intros ->].
Qed.

Lemma vehicle_exists_history self v :
  vehicle_exists self v = true ↔ get_vehicle_history self v ≠ [].
Proof.
  rewrite history_nil. unfold vehicle_exists.
  destruct (vin_index self !! v) as [[|tx l]|]; simpl;
    rewrite ?bool_decide_eq_true; split; try done; lia.
Qed.

Lemma get_vehicle_info_None self v :
  get_vehicle_info self v = None ↔ get_vehicle_history self v = [].
Proof. unfold get_vehicle_info. by destruct (get_vehicle_history self v). Qed.

(** X9. [vehicle_exists] is true exactly when the history of the vehicle
    is not empty, which is exactly when [get_vehicle_info] returns a
    state; for a vehicle that does not exist the history is empty, the
    state is [None] and the latest mileage is [None]. *)
Theorem vehicle_exists_spec self v :
  (vehicle_exists self v = true ↔ get_vehicle_history self v ≠ [])
  ∧ (vehicle_exists self v = true ↔ is_Some (get_vehicle_info self v))
  ∧ (vehicle_exists self v = false →
     get_vehicle_history self v = [] ∧ get_vehicle_info self v = None
     ∧ get_latest_mileage self v = PNone).
Proof.
  split_and!.
  - apply vehicle_exists_history.
  - rewrite vehicle_exists_history, <- not_eq_None_Some.
    by rewrite get_vehicle_info_None.
  - intros Hno.
    assert (get_vehicle_history self v = []) as E.
    { destruct (get_vehicle_history self v) eqn:E; [done|].
      assert (vehicle_exists self v = true); [|congruence].
      apply vehicle_exists_history. by rewrite E. }
    split_and!; [done|by apply get_vehicle_info_None|].
    unfold get_latest_mileage. by rewrite E.
Qed.

Lemma chain_history_filter (chain : list (Block F)) v :
  chain_history chain v = filter (λ tx, vin tx = v) (chain_transactions chain).
Proof.
  unfold chain_history, chain_transactions.
  induction chain as [|b chain IH]; simpl; [done|].
  by rewrite IH, filter_app.
Qed.

(** X10. In a reachable ledger a vehicle exists exactly when a sealed
    block holds a transaction of it (the pool does not count), and the
    index holds no empty list and no transaction under another vehicle's
    key. *)
Theorem vehicle_exists_sealed self v :
  reachable self →
  (vehicle_exists self v = true ↔ ∃ tx, tx ∈ chain_transactions (chain self) ∧ vin tx = v)
  ∧ ∀ l, vin_index self !! v = Some l → l ≠ [] ∧ Forall (λ tx, vin tx = v) l.
Proof.
  intros Hreach.
  pose proof (reachable_index_lookup self v Hreach) as Hidx.
  rewrite chain_history_filter in Hidx. split.
  - rewrite vehicle_exists_history, history_nil, Hidx. split.
    + intros Hne. destruct (filter _ _) as [|tx l] eqn:E; [done|].
      assert (tx ∈ filter (λ tx, vin tx = v) (chain_transactions (chain self)))
        as [? ?]%list_elem_of_filter by (rewrite E; by left).
      by exists tx.
    + intros (tx & Hin & Hv) E.
      assert (tx ∈ filter (λ tx, vin tx = v) (chain_transactions (chain self))) as Hf.
      { by apply list_elem_of_filter. }
      rewrite E in Hf. by apply elem_of_nil in Hf.
  - intros l Hl. rewrite Hl in Hidx. simpl in Hidx. subst l. split.
    + rewrite (reachable_index self Hreach) in Hl.
      assert (v ∈ dom (foldl _index_block (∅ : gmap string (list (Transaction F)))
                         (chain self))) as Hdom by (apply elem_of_dom; eauto).
      rewrite index_chain_dom, dom_empty_L, union_empty_r_L in Hdom.
      apply elem_of_list_to_set, list_elem_of_fmap in Hdom as (tx & -> & Htx).
      intros E.
      assert (tx ∈ filter (λ tx', vin tx' = vin tx) (chain_transactions (chain self)))
        as Hf by (by apply list_elem_of_filter).
      rewrite E in Hf. by apply elem_of_nil in Hf.
    + apply Forall_forall. by intros tx [? _]%list_elem_of_filter.
Qed.

Lemma info_step_fixed info tx :
  info_vin (info_step info tx) = info_vin info
  ∧ total_transactions (info_step info tx) = total_transactions info.
Proof. unfold info_step. by repeat case_bool_decide. Qed.

Lemma foldl_info_fixed info l :
  info_vin (foldl info_step info l) = info_vin info
  ∧ total_transactions (foldl info_step info l) = total_transactions info.
Proof.
  revert info. induction l as [|tx l IH]; intros info; [done|]. simpl.
  destruct (IH (info_step info tx)) as [-> ->]. apply info_step_fixed.
Qed.

Lemma get_vehicle_info_Some self v info :
  get_vehicle_info self v = Some info →
  get_vehicle_history self v ≠ []
  ∧ info = foldl info_step
             (mkInfo v PNone PNone PNone PNone PNone PNone PNone
                (length (get_vehicle_history self v)))
             (get_vehicle_history self v).
Proof.
  unfold get_vehicle_info.
  destruct (get_vehicle_history self v); [done|]. by intros [= <-].
Qed.

(** X11. In a reachable ledger the state of a vehicle carries the vehicle
    asked for, and its [total_transactions] is the number of transactions
    of the vehicle in the sealed blocks, which is not zero. *)
Theorem vehicle_info_counts self v info :
  reachable self → get_vehicle_info self v = Some info →
  info_vin info = v
  ∧ total_transactions info = length (chain_history (chain self) v)
  ∧ 0 < total_transactions info.
Proof.
  intros Hreach [Hne ->]%get_vehicle_info_Some.
  destruct (foldl_info_fixed
    (mkInfo v PNone PNone PNone PNone PNone PNone PNone
       (length (get_vehicle_history self v))) (get_vehicle_history self v))
    as [-> ->]. simpl.
  split; [done|]. split.
  - unfold get_vehicle_history.
    by rewrite py_sorted_length, (reachable_index_lookup self v Hreach).
  - destruct (get_vehicle_history self v); [done|]. simpl. lia.
Qed.

Lemma info_mileage_step info tx :
  mileage_keyed tx →
  latest_mileage (info_step info tx) = mileage_step (latest_mileage info) tx.
Proof.
  intros [Hc Hu]. unfold info_step, mileage_step.
  case_bool_decide as Hty; simpl.
  { by rewrite Hc. }
  case_bool_decide as Hty'; simpl.
  { by rewrite Hu. }
  by case_bool_decide.
Qed.

Lemma foldl_info_mileage info l :
  Forall mileage_keyed l →
  latest_mileage (foldl info_step info l) = foldl mileage_step (latest_mileage info) l.
Proof.
  intros Hl. revert info. induction Hl as [|tx l Htx _ IH]; intros info; [done|].
  simpl. by rewrite IH, info_mileage_step.
Qed.

(** X12. When every creation and every mileage update of the history
    carries its mileage key, the [latest_mileage] of [get_vehicle_info]
    is what [get_latest_mileage] returns. *)
Theorem mileage_queries_agree self v info :
  Forall mileage_keyed (get_vehicle_history self v) →
  get_vehicle_info self v = Some info →
  latest_mileage info = get_latest_mileage self v.
Proof.
  intros Hkeyed [_ ->]%get_vehicle_info_Some. unfold get_latest_mileage.
  by rewrite foldl_info_mileage.
Qed.

Lemma mileage_step_sets m tx : sets_mileage tx = true → mileage_step m tx = mileage_of tx.
Proof.
  unfold sets_mileage, mileage_step, mileage_of.
  case_bool_decide as Hty; simpl.
  - destruct (dict_has "initial_mileage" (payload tx)); simpl; [done|].
    rewrite bool_decide_eq_false_2; [done|]. rewrite Hty. discriminate.
  - by intros ->.
Qed.

(** X13. [get_latest_mileage] is the value of the last transaction of
    the history that carries a mileage, whatever came before it. *)
Theorem latest_mileage_last_write self v pre tx post :
  get_vehicle_history self v = pre ++ tx :: post →
  sets_mileage tx = true → Forall (λ tx', sets_mileage tx' = false) post →
  get_latest_mileage self v = mileage_of tx.
Proof.
  intros Hh Htx Hpost. unfold get_latest_mileage.
  rewrite Hh, foldl_app. simpl.
  etrans; [|by apply (mileage_step_sets (foldl mileage_step PNone pre))].
  apply (foldl_keeps mileage_step id (λ tx', sets_mileage tx' = false));
    [|done].
  intros m tx'. apply mileage_step_skip.
Qed.

Lemma info_step_owner_keep info tx :
  sets_owner tx = false → current_owner (info_step info tx) = current_owner info.
Proof.
  unfold sets_owner, info_step. intros [H1 H2]%orb_false_iff.
  apply bool_decide_eq_false in H1, H2.
  rewrite (bool_decide_eq_false_2 _ H1), (bool_decide_eq_false_2 _ H2).
  by case_bool_decide.
Qed.

Lemma info_step_owner_set info tx :
  sets_owner tx = true → current_owner (info_step info tx) = owner_of tx.
Proof.
  unfold sets_owner, info_step, owner_of.
  destruct (decide (type tx = "VEHICLE_CREATED")) as [Hc|Hc].
  - by rewrite !(bool_decide_eq_true_2 _ Hc).
  - rewrite !(bool_decide_eq_false_2 _ Hc). simpl.
    intros Hot%bool_decide_eq_true.
    rewrite (bool_decide_eq_false_2 (type tx = "MILEAGE_UPDATE"))
      by (rewrite Hot; discriminate).
    by rewrite (bool_decide_eq_true_2 _ Hot).
Qed.

(** X14. The [current_owner] of [get_vehicle_info] is assigned by the
    last creation or ownership transfer of the history: the [owner_id] of
    a creation (its actor when absent), the [new_owner_id] of a transfer
    ([None] when absent). *)
Theorem current_owner_last_write self v pre tx post info :
  get_vehicle_history self v = pre ++ tx :: post →
  sets_owner tx = true → Forall (λ tx', sets_owner tx' = false) post →
  get_vehicle_info self v = Some info →
  current_owner info = owner_of tx.
Proof.
  intros Hh Htx Hpost [_ ->]%get_vehicle_info_Some.
  rewrite Hh, foldl_app. simpl.
  rewrite (foldl_keeps info_step current_owner (λ tx', sets_owner tx' = false));
    [by apply info_step_owner_set| |done].
  intros i tx'. apply info_step_owner_keep.
Qed.

Lemma info_step_description_keep info tx :
  type tx ≠ "VEHICLE_CREATED" → description (info_step info tx) = description info.
Proof.
  intros Hty. unfold info_step. rewrite bool_decide_eq_false_2 by done.
  by repeat case_bool_decide.
Qed.

(** X15. The make, model, year, creator and creation time of
    [get_vehicle_info] come from the last creation of the history: a
    second creation of the same vehicle replaces the first. *)
Theorem description_from_last_creation self v pre tx post info :
  get_vehicle_history self v = pre ++ tx :: post →
  type tx = "VEHICLE_CREATED" →
  Forall (λ tx', type tx' ≠ "VEHICLE_CREATED") post →
  get_vehicle_info self v = Some info →
  description info
  = (dict_get (payload tx) "make" PNone, dict_get (payload tx) "model" PNone,
     dict_get (payload tx) "year" PNone, PStr (actor_id tx), PFloat (timestamp tx)).
Proof.
  intros Hh Htx Hpost [_ ->]%get_vehicle_info_Some.
  rewrite Hh, foldl_app. simpl.
  rewrite (foldl_keeps info_step description (λ tx', type tx' ≠ "VEHICLE_CREATED"));
    [|apply info_step_description_keep|done].
  unfold info_step. by rewrite Htx.
Qed.

(** X16. A vehicle with sealed transactions but no creation has a state:
    its make, model, year, creator and creation time are [None], and the
    transactions are counted. *)
Theorem description_without_creation self v info :
  Forall (λ tx, type tx ≠ "VEHICLE_CREATED") (get_vehicle_history self v) →
  get_vehicle_info self v = Some info →
  description info = (PNone, PNone, PNone, PNone, PNone)
  ∧ total_transactions info = length (get_vehicle_history self v).
Proof.
  intros Hh [_ ->]%get_vehicle_info_Some. split.
  - by rewrite (foldl_keeps info_step description
                  (λ tx', type tx' ≠ "VEHICLE_CREATED"))
      by (apply info_step_description_keep || done).
  - by destruct (foldl_info_fixed
      (mkInfo v PNone PNone PNone PNone PNone PNone PNone
         (length (get_vehicle_history self v)))
      (get_vehicle_history self v)) as [_ ->].
Qed.

(** X17. Sealing publishes the pool: [create_block] appends to the index
    of each vehicle the pool's transactions of that vehicle, in pool order,
    and the history afterwards holds the former history and these;
    [add_transaction] alone changes no history. *)
Theorem seal_publishes self now n p v :
  default [] (vin_index (create_block now n p self).1 !! v)
  = default [] (vin_index self !! v) ++ filter (λ tx, vin tx = v) (transactions self)
  ∧ get_vehicle_history (create_block now n p self).1 v
    ≡ₚ get_vehicle_history self v ++ filter (λ tx, vin tx = v) (transactions self)
  ∧ ∀ tx, get_vehicle_history (add_transaction tx self).1 v
          = get_vehicle_history self v.
Proof.
  assert (default [] (vin_index (create_block now n p self).1 !! v)
          = default [] (vin_index self !! v)
            ++ filter (λ tx, vin tx = v) (transactions self)) as E.
  { simpl. unfold _index_block. simpl. apply index_transactions_lookup. }
  split_and!; [done| |done].
  unfold get_vehicle_history. rewrite E. by rewrite !py_sorted_perm.
Qed.

End query_facts.

Section identity_facts.
Context {F : Type} {float_F : PyDouble F} {sha256 : Sha256}.
Implicit Types (tx : Transaction F).



End identity_facts.

Section verification_facts.
Context {F : Type} {float_F : PyDouble F} {sha256 : Sha256}
  {signer : Signer} {verifier : Verifier}.
Implicit Types (tx : Transaction F).

Lemma verify_signature_true tx pub :
  verify_transaction_signature tx pub = true
  ↔ ∃ id sig, tx_id tx = Some id ∧ id ≠ "" ∧ signature tx = Some sig ∧ sig ≠ ""
              ∧ pkcs1_verify_hex pub id sig = Some true.
Proof.
  unfold verify_transaction_signature.
  destruct (signature tx) as [[|c sig]|], (tx_id tx) as [[|c' id]|]; simpl;
    try (split; [done|by intros (?&?&?&?&?&?&?); simplify_eq]).
  destruct (pkcs1_verify_hex pub (String c' id) (String c sig)) as [[]|] eqn:E;
    (split; [intros ?|intros (?&?&?&?&?&?&?)]); simplify_eq; eauto 10.
Qed.

Lemma sign_then_verify_signature tx tx' priv pub :
  key_pair priv pub → sign_transaction tx priv = inr tx' →
  verify_transaction_signature tx' pub = true.
Proof.
  intros Hpair. unfold sign_transaction.
  destruct (tx_id tx) as [[|c id]|] eqn:Eid; [done| |done].
  destruct (pkcs1_sign_hex priv (String c id)) as [e|sig] eqn:Esig; [done|].
  intros [= <-]. destruct (Hpair _ _ Esig) as [Hne Hver].
  apply verify_signature_true. exists (String c id), sig. by simpl.
Qed.

(** X19. With a private and a public key that belong together, a
    transaction that [sign_transaction] has signed passes
    [verify_transaction_signature]. *)
Theorem sign_then_verify tx tx' priv pub :
  key_pair priv pub → sign_transaction tx priv = inr tx' →
  verify_transaction_signature tx' pub = true.
Proof. apply sign_then_verify_signature. Qed.


End verification_facts.

Section users_facts.
Context {F : Type} {float_F : PyDouble F} {sha256 : Sha256}
  {signer : Signer} {verifier : Verifier}.
Implicit Types (tx : Transaction F) (USERS : gmap string User).

Ltac role_cases r :=
  destruct (String.eqb_spec r "MANUFACTURER") as [->|?];
  [|destruct (String.eqb_spec r "DMV") as [->|?];
    [|destruct (String.eqb_spec r "MECHANIC") as [->|?];
      [|destruct (String.eqb_spec r "INSURER") as [->|?];
        [|destruct (String.eqb_spec r "BUYER") as [->|?]]]]];
  simpl.

Lemma roles_get_permitted r ty :
  ty ∈ roles_get r ROLES →
  ty ∈ event_types ∧ r ≠ "BUYER"
  ∧ r ∈ ["MANUFACTURER"; "DMV"; "MECHANIC"; "INSURER"].
Proof.
  unfold ROLES, event_types. simpl.
  role_cases r; intros Hty;
    repeat (apply elem_of_cons in Hty as [->|Hty]);
    try (by apply elem_of_nil in Hty);
    split_and!; first [done|apply (bool_decide_unpack _); by vm_compute].
Qed.

Lemma can_create_true USERS uid ty :
  can_user_create_transaction USERS uid ty = true
  ↔ ∃ u, USERS !! uid = Some u ∧ ty ∈ roles_get (user_role u) ROLES.
Proof.
  unfold can_user_create_transaction, get_user.
  destruct (USERS !! uid) as [u|]; [|split; [done|by intros (?&?&?)]].
  rewrite bool_decide_eq_true. split; [eauto|]. by intros (? & [= <-] & ?).
Qed.

(** The table [ROLES], read through [ROLES.get(role, [])]. *)
Lemma roles_get_table r ty :
  ty ∈ roles_get r ROLES
  ↔ r ∈ ["MANUFACTURER"; "DMV"] ∧ ty ∈ ["VEHICLE_CREATED"; "OWNERSHIP_TRANSFER"]
    ∨ r = "MECHANIC" ∧ ty ∈ ["MILEAGE_UPDATE"; "SERVICE_RECORD"]
    ∨ r = "INSURER" ∧ ty = "ACCIDENT_RECORD".
Proof.
  split.
  - unfold ROLES. simpl. role_cases r; intros Hty;
      try (by apply elem_of_nil in Hty).
    + left. split; [|done]. by left.
    + left. split; [|done]. right. by left.
    + right. left. by split.
    + right. right. split; [done|].
      apply elem_of_cons in Hty as [->|Hty]; [done|].
      by apply elem_of_nil in Hty.
  - intros [[Hr Hty]|[[-> Hty]|[-> ->]]].
    + apply elem_of_cons in Hr as [->|Hr]; [done|].
      apply elem_of_cons in Hr as [->|Hr]; [done|].
      by apply elem_of_nil in Hr.
    + done.
    + by left.
Qed.

(** X21. [can_user_create_transaction] returns true exactly when the user
    is registered and [ROLES] pairs its role with the type: a manufacturer
    or a DMV with a vehicle creation or an ownership transfer, a mechanic
    with a mileage update or a service record, an insurer with an accident
    record.  For an unregistered user, a buyer, or a role that is not in
    the table it returns false for every type. *)
Theorem permission_table USERS uid ty :
  can_user_create_transaction USERS uid ty = true
  ↔ ∃ u, USERS !! uid = Some u
       ∧ (user_role u ∈ ["MANUFACTURER"; "DMV"]
          ∧ ty ∈ ["VEHICLE_CREATED"; "OWNERSHIP_TRANSFER"]
          ∨ user_role u = "MECHANIC" ∧ ty ∈ ["MILEAGE_UPDATE"; "SERVICE_RECORD"]
          ∨ user_role u = "INSURER" ∧ ty = "ACCIDENT_RECORD").
Proof.
  rewrite can_create_true.
  split; intros (u & Hu & Hty); exists u; (split; [done|]);
    by apply roles_get_table.
Qed.

Lemma create_and_sign_inr USERS now uid v ty p tx :
  create_and_sign_transaction USERS now uid v ty p = inr tx
  ↔ ∃ u sig,
      USERS !! uid = Some u ∧ ty ∈ roles_get (user_role u) ROLES
      ∧ sign_transaction (Transaction_init now v ty uid (user_role u) p)
          (private_key u) = inr tx
      ∧ signature tx = Some sig.
Proof.
  unfold create_and_sign_transaction, can_user_create_transaction, get_user.
  destruct (USERS !! uid) as [u|] eqn:Hu; [|split; [done|by intros (?&?&?&_)]].
  case_bool_decide as Hty; simpl.
  - destruct (sign_transaction _ _) as [e|tx'] eqn:Es.
    + split; [done|]. intros (? & ? & [= <-] & _ & ? & _). congruence.
    + split.
      * intros [= <-].
        assert (∃ sig, signature tx' = Some sig) as [sig Hsig].
        { revert Es. unfold sign_transaction. simpl.
          destruct (_compute_tx_id _); [done|].
          destruct (pkcs1_sign_hex _ _); [done|]. intros [= <-]. eauto. }
        by exists u, sig.
      * intros (? & ? & [= <-] & _ & ? & _). congruence.
  - split; [done|]. by intros (? & ? & [= <-] & ? & _).
Qed.

(** X22. A transaction returned by [create_and_sign_transaction] is from
    a registered user whose role permits the type; it has the fields
    asked for, the user as actor, the role of the registry, the clock as
    timestamp, the identity computed from these (not empty), and the
    signature of that identity under the user's private key. *)
Theorem create_and_sign_spec USERS now uid v ty p tx :
  create_and_sign_transaction USERS now uid v ty p = inr tx →
  ∃ u id sig,
    USERS !! uid = Some u ∧ ty ∈ roles_get (user_role u) ROLES
    ∧ id = _compute_tx_id (Transaction_init now v ty uid (user_role u) p)
    ∧ id ≠ "" ∧ pkcs1_sign_hex (private_key u) id = inr sig
    ∧ tx = mkTransaction v ty uid (user_role u) now p (Some id) (Some sig).
Proof.
  intros (u & sig & Hu & Hty & Hs & Hsig)%create_and_sign_inr.
  exists u, (_compute_tx_id (Transaction_init now v ty uid (user_role u) p)), sig.
  revert Hs. unfold sign_transaction. simpl.
  destruct (_compute_tx_id _) as [|c id] eqn:Eid; [done|].
  destruct (pkcs1_sign_hex _ _) as [|sig'] eqn:Es; [done|].
  intros [= <-]. simpl in Hsig. injection Hsig as ->. by split_and!.
Qed.

(** X23. [create_and_sign_transaction] raises [ValueError] for a user out
    of the registry and [PermissionError] for a type the user's role does
    not permit, with these messages; a role outside the four writing roles
    (a buyer, or a role not in the table) permits no type. *)
Theorem create_and_sign_errors USERS now uid v ty (p : list (string * pyval F)) :
  (USERS !! uid = None →
   create_and_sign_transaction USERS now uid v ty p
   = inl (Raised (ValueError ("User " +:+ uid +:+ " not found"))))
  ∧ (∀ u, USERS !! uid = Some u → ty ∉ roles_get (user_role u) ROLES →
     create_and_sign_transaction USERS now uid v ty p
     = inl (PermissionError
              ("User " +:+ uid +:+ " with role " +:+ user_role u
               +:+ " cannot create " +:+ ty +:+ " transactions")))
  ∧ (∀ u, USERS !! uid = Some u →
     user_role u ∉ ["MANUFACTURER"; "DMV"; "MECHANIC"; "INSURER"] →
     ty ∉ roles_get (user_role u) ROLES).
Proof.
  unfold create_and_sign_transaction, can_user_create_transaction, get_user.
  split_and!.
  - by intros ->.
  - intros u -> Hty. by rewrite bool_decide_eq_false_2.
  - intros u _ Hrole Hty. by apply roles_get_permitted in Hty as (_ & _ & ?).
Qed.

Lemma verify_transaction_true USERS tx :
  verify_transaction USERS tx = true
  ↔ ∃ u, USERS !! actor_id tx = Some u
         ∧ verify_transaction_signature tx (public_key u) = true
         ∧ type tx ∈ roles_get (user_role u) ROLES.
Proof.
  unfold verify_transaction, can_user_create_transaction, get_user.
  destruct (USERS !! actor_id tx) as [u|]; [|split; [done|by intros (?&?&_)]].
  destruct (verify_transaction_signature tx (public_key u)) eqn:Hv; simpl.
  - destruct (decide (type tx ∈ roles_get (user_role u) ROLES)) as [Hin|Hnin].
    + rewrite bool_decide_eq_true_2 by done. simpl.
      split; [intros _; exists u; by split_and!|done].
    + rewrite bool_decide_eq_false_2 by done. simpl. split; [done|].
      by intros (? & [= <-] & _ & ?).
  - split; [done|]. intros (? & [= <-] & ? & _). congruence.
Qed.

(** X24. With a registered user whose keys belong together, what
    [create_and_sign_transaction] returns passes [verify_transaction]. *)
Theorem created_transaction_verifies USERS now uid v ty p tx u :
  USERS !! uid = Some u → key_pair (private_key u) (public_key u) →
  create_and_sign_transaction USERS now uid v ty p = inr tx →
  verify_transaction USERS tx = true.
Proof.
  intros Hu Hpair (u' & sig & Hu' & Hty & Hs & _)%create_and_sign_inr.
  assert (u' = u) as -> by congruence.
  assert (actor_id tx = uid ∧ type tx = ty) as [Ha Ht].
  { revert Hs. unfold sign_transaction. simpl.
    destruct (_compute_tx_id _); [done|].
    destruct (pkcs1_sign_hex _ _); [done|]. by intros [= <-]. }
  apply verify_transaction_true. exists u. rewrite Ha, Ht. split_and!; try done.
  by eapply sign_then_verify_signature.
Qed.

(** X25. A transaction that passes [verify_transaction] has a registered
    actor who is not a buyer, an identity and a signature that verify
    under the actor's public key, and a type the actor's registered role
    permits.  The vehicle, the role field, the timestamp and the payload
    are not looked at: a transaction with the same actor, type, identity
    and signature passes too. *)
Theorem verify_transaction_sound USERS tx :
  verify_transaction USERS tx = true →
  (∃ u id sig,
     USERS !! actor_id tx = Some u
     ∧ tx_id tx = Some id ∧ signature tx = Some sig
     ∧ pkcs1_verify_hex (public_key u) id sig = Some true
     ∧ type tx ∈ roles_get (user_role u) ROLES
     ∧ type tx ∈ event_types ∧ user_role u ≠ "BUYER")
  ∧ ∀ tx', actor_id tx' = actor_id tx → type tx' = type tx →
           tx_id tx' = tx_id tx → signature tx' = signature tx →
           verify_transaction USERS tx' = true.
Proof.
  intros (u & Hu & Hver & Hty)%verify_transaction_true. split.
  - apply verify_signature_true in Hver as (id & sig & ? & ? & ? & ? & ?).
    destruct (roles_get_permitted _ _ Hty) as (? & ? & _).
    exists u, id, sig. by split_and!.
  - intros tx' Ha Ht Hid Hsig. apply verify_transaction_true. exists u.
    rewrite Ha, Ht. split_and!; try done.
    apply verify_signature_true in Hver as (id & sig & ? & ? & ? & ? & ?).
    apply verify_signature_true. exists id, sig. split_and!; congruence.
Qed.

End users_facts.

(** * The scenarios, checked *)

Section scenario_checks.
#[local] Existing Instance plain_digest.
#[local] Existing Instance plain_signer.
#[local] Existing Instance plain_verifier.
#[local] Open Scope Z_scope.

Lemma plain_key_pair key : key_pair key key.
Proof.
  intros msg sig [= <-]. split; [discriminate|].
  unfold pkcs1_verify_hex, plain_verifier. by rewrite bool_decide_eq_true_2.
Qed.

Lemma demo_lifecycle_reachable : reachable demo_lifecycle.
Proof. apply reachable_create, reachable_submit_all, reachable_init. Qed.

Lemma demo_lifecycle_state :
  get_vehicle_info demo_lifecycle "V1" = Some demo_lifecycle_info.
Proof. by vm_compute. Qed.

Lemma demo_recreation_state :
  get_vehicle_info demo_recreation "V1" = Some demo_recreation_info.
Proof. by vm_compute. Qed.

Lemma demo_created_signed :
  create_and_sign_transaction demo_users 5 "mechanic_1" "V1" "SERVICE_RECORD" []
  = inr demo_signed.
Proof. by vm_compute. Qed.

Lemma to_dict_from_dict_witness :
  (∀ now', from_dict now' demo_dict = FromDict demo_unsigned)
  ∧ ∀ k, dict_lookup k (to_dict_items demo_unsigned)
         = if bool_decide (k ∈ exported_keys)
           then Some (default PNone (dict_lookup k demo_dict)) else None.
Proof. apply (to_dict_from_dict 9 demo_dict demo_unsigned). reflexivity. Defined.

Lemma create_block_valid_witness :
  is_chain_valid (create_block 7 1 "ff" demo_pool).1
  = is_chain_valid demo_pool && bool_decide (hash demo_genesis_block = Some "ff").
Proof. apply (create_block_valid demo_pool 7 1 "ff" demo_genesis_block). reflexivity. Defined.

Lemma linked_valid_witness : is_chain_valid demo_ledger = true.
Proof.
  apply (linked_valid demo_ledger).
  apply (linked_create 7 1 demo_genesis_block
           (default "" (get_last_block demo_pool ≫= hash)) demo_pool).
  - apply linked_add, linked_init.
  - reflexivity.
  - reflexivity.
Defined.

Lemma reachable_chain_shape_witness :
  (∃ g, chain demo_history !! 0%nat = Some g ∧ previous_hash g = "00"
        ∧ nonce g = 0 ∧ block_transactions g = [])
  ∧ is_Some (get_last_block demo_history)
  ∧ ∀ i b, chain demo_history !! i = Some b →
           block_number b = (i + 1)%nat ∧ hash b = Some (compute_hash b).
Proof. apply (reachable_chain_shape demo_history), demo_history_reachable. Defined.

Lemma get_chain_data_verifiable_witness :
  ∃ d, Block_to_dict demo_sealed.2 = PDict d
       ∧ dict_lookup "block_number" d = Some (PInt 2)
       ∧ dict_lookup "hash" d
         = Some (PStr (sha256_hexdigest
                         (dumps_sorted (PDict (filter (λ kv, kv.1 ≠ "hash") d))))).
Proof.
  apply (get_chain_data_verifiable demo_ledger 1 (Block_to_dict demo_sealed.2)).
  - apply demo_ledger_reachable.
  - reflexivity.
Defined.

Lemma vehicle_exists_sealed_witness :
  (vehicle_exists demo_history "V1" = true
   ↔ ∃ tx, tx ∈ chain_transactions (chain demo_history) ∧ vin tx = "V1")
  ∧ ∀ l, vin_index demo_history !! "V1" = Some l →
         l ≠ [] ∧ Forall (λ tx, vin tx = "V1") l.
Proof. apply (vehicle_exists_sealed demo_history "V1"), demo_history_reachable. Defined.

Lemma vehicle_info_counts_witness :
  info_vin demo_lifecycle_info = "V1"
  ∧ total_transactions demo_lifecycle_info
    = length (chain_history (chain demo_lifecycle) "V1")
  ∧ (0 < total_transactions demo_lifecycle_info)%nat.
Proof.
  apply (vehicle_info_counts demo_lifecycle "V1" demo_lifecycle_info).
  - apply demo_lifecycle_reachable.
  - apply demo_lifecycle_state.
Defined.

Lemma mileage_queries_agree_witness :
  latest_mileage demo_lifecycle_info = get_latest_mileage demo_lifecycle "V1".
Proof.
  apply (mileage_queries_agree demo_lifecycle "V1" demo_lifecycle_info).
  - repeat constructor; intros E; try reflexivity; discriminate E.
  - apply demo_lifecycle_state.
Defined.

Lemma latest_mileage_last_write_witness :
  get_latest_mileage demo_keyless_then_update "V1" = mileage_of demo_update.
Proof.
  apply (latest_mileage_last_write demo_keyless_then_update "V1"
           [demo_created; demo_keyless] demo_update []).
  - reflexivity.
  - reflexivity.
  - constructor.
Defined.

Lemma current_owner_last_write_witness :
  current_owner demo_lifecycle_info = owner_of demo_transfer.
Proof.
  apply (current_owner_last_write demo_lifecycle "V1"
           [demo_created; demo_update; demo_service] demo_transfer
           [demo_late_update] demo_lifecycle_info).
  - reflexivity.
  - reflexivity.
  - repeat constructor.
  - apply demo_lifecycle_state.
Defined.

Lemma description_from_last_creation_witness :
  description demo_recreation_info
  = (PStr "Other", PNone, PNone, PStr "dmv_1", PFloat 7).
Proof.
  apply (description_from_last_creation demo_recreation "V1"
           [demo_created; demo_update; demo_service; demo_transfer]
           demo_recreated [demo_late_update] demo_recreation_info).
  - reflexivity.
  - reflexivity.
  - repeat constructor. intros E. discriminate E.
  - apply demo_recreation_state.
Defined.

Lemma description_without_creation_witness :
  description demo_history_info = (PNone, PNone, PNone, PNone, PNone)
  ∧ total_transactions demo_history_info
    = length (get_vehicle_history demo_history "V1").
Proof.
  apply (description_without_creation demo_history "V1" demo_history_info).
  - repeat constructor; intros E; discriminate E.
  - reflexivity.
Defined.


Lemma sign_then_verify_witness :
  verify_transaction_signature demo_signed "k2" = true.
Proof.
  apply (sign_then_verify (Transaction_init 5 "V1" "SERVICE_RECORD" "mechanic_1"
                             "MECHANIC" []) demo_signed "k2" "k2").
  - apply plain_key_pair.
  - reflexivity.
Defined.


Lemma create_and_sign_spec_witness :
  ∃ u id sig,
    demo_users !! "mechanic_1" = Some u
    ∧ "SERVICE_RECORD" ∈ roles_get (user_role u) ROLES
    ∧ id = _compute_tx_id
             (Transaction_init 5 "V1" "SERVICE_RECORD" "mechanic_1" (user_role u) [])
    ∧ id ≠ "" ∧ pkcs1_sign_hex (private_key u) id = inr sig
    ∧ demo_signed
      = mkTransaction "V1" "SERVICE_RECORD" "mechanic_1" (user_role u) 5 []
          (Some id) (Some sig).
Proof.
  apply (create_and_sign_spec demo_users 5 "mechanic_1" "V1" "SERVICE_RECORD" []
           demo_signed).
  apply demo_created_signed.
Defined.

Lemma created_transaction_verifies_witness :
  verify_transaction demo_users demo_signed = true.
Proof.
  apply (created_transaction_verifies demo_users 5 "mechanic_1" "V1"
           "SERVICE_RECORD" [] demo_signed
           (mkUser "mechanic_1" "MECHANIC" "k2" "k2")).
  - reflexivity.
  - apply plain_key_pair.
  - apply demo_created_signed.
Defined.

Lemma verify_transaction_sound_witness :
  (∃ u id sig,
     demo_users !! actor_id demo_signed = Some u
     ∧ tx_id demo_signed = Some id ∧ signature demo_signed = Some sig
     ∧ pkcs1_verify_hex (public_key u) id sig = Some true
     ∧ type demo_signed ∈ roles_get (user_role u) ROLES
     ∧ type demo_signed ∈ event_types ∧ user_role u ≠ "BUYER")
  ∧ ∀ tx' : Transaction Z,
      actor_id tx' = actor_id demo_signed → type tx' = type demo_signed →
           tx_id tx' = tx_id demo_signed → signature tx' = signature demo_signed →
           verify_transaction demo_users tx' = true.
Proof. apply (verify_transaction_sound demo_users demo_signed). by vm_compute. Defined.

End scenario_checks.
